(** * fas: database migration tasks (src/fas/util/database/tasks.py)

    A shallow embedding of the migration engine: the advisory-lock key,
    the ledger table and its constraints, the transactional executor, the
    orchestrator [_migrate] with [execute_migration_scripts], and the
    [migrate] command.  Database and file-system effects are threaded
    through an explicit state, exceptions are values, and every call of the
    database client leaves an event, so that the order of effects can be
    stated. *)

From Stdlib Require Import ZArith Lia.
From stdpp Require Import base gmap strings list.
#[local] Open Scope Z_scope.

(** ** The interpreter's [hash] on [str]

    [MIGRATION_LOCK_KEY] is computed with Python's built-in [hash].  For a
    [str] CPython hashes the string's bytes with SipHash keyed by the
    process's hash secret (Python/pyhash.c); the secret is drawn at start-up,
    from the operating system or from PYTHONHASHSEED
    (Python/bootstrap_hash.c).  64-bit words are [Z] with the wrap-around
    written out. *)
Module PyHash.

Definition wrap64 (x : Z) : Z := x mod 2 ^ 64.
Definition wrap32 (x : Z) : Z := x mod 2 ^ 32.

Definition ROTATE (x b : Z) : Z :=
  wrap64 (Z.lor (Z.shiftl x b) (Z.shiftr x (64 - b))).

Record sipstate := SipState { v0 : Z; v1 : Z; v2 : Z; v3 : Z }.

Definition HALF_ROUND (a b c d s t : Z) : Z * Z * Z * Z :=
  let a := wrap64 (a + b) in
  let c := wrap64 (c + d) in
  let b := Z.lxor (ROTATE b s) a in
  let d := Z.lxor (ROTATE d t) c in
  let a := ROTATE a 32 in
  (a, b, c, d).

Definition SINGLE_ROUND (st : sipstate) : sipstate :=
  let '(a0, a1, a2, a3) := HALF_ROUND (v0 st) (v1 st) (v2 st) (v3 st) 13 16 in
  let '(b2, b1, b0, b3) := HALF_ROUND a2 a1 a0 a3 17 21 in
  SipState b0 b1 b2 b3.

Fixpoint rounds (n : nat) (st : sipstate) : sipstate :=
  match n with
  | O => st
  | S n' => rounds n' (SINGLE_ROUND st)
  end.

(** Little-endian word of a byte list. *)
Fixpoint le_word (bs : list Z) : Z :=
  match bs with
  | [] => 0
  | b :: bs' => Z.lor b (Z.shiftl (le_word bs') 8)
  end.

Definition absorb (c : nat) (st : sipstate) (mi : Z) : sipstate :=
  let st := SipState (v0 st) (v1 st) (v2 st) (Z.lxor (v3 st) mi) in
  let st := rounds c st in
  SipState (Z.lxor (v0 st) mi) (v1 st) (v2 st) (v3 st).

(** The [while (src_sz >= 8)] loop; [fuel] bounds the number of words. *)
Fixpoint compress (c : nat) (fuel : nat) (st : sipstate) (src : list Z)
  : sipstate * list Z :=
  match fuel with
  | O => (st, src)
  | S fuel' =>
      if decide (8 <= length src)%nat
      then compress c fuel' (absorb c st (le_word (take 8 src))) (drop 8 src)
      else (st, src)
  end.

(** SipHash with [c] compression rounds and [d] finalisation rounds. *)
Definition siphash (c d : nat) (k0 k1 : Z) (src : list Z) : Z :=
  let b := wrap64 (Z.shiftl (Z.of_nat (length src)) 56) in
  let st := SipState (Z.lxor k0 0x736f6d6570736575) (Z.lxor k1 0x646f72616e646f6d)
                     (Z.lxor k0 0x6c7967656e657261) (Z.lxor k1 0x7465646279746573) in
  let '(st, rest) := compress c (length src) st src in
  let b := Z.lor b (le_word rest) in
  let st := absorb c st b in
  let st := SipState (v0 st) (v1 st) (Z.lxor (v2 st) 0xff) (v3 st) in
  let st := rounds d st in
  Z.lxor (Z.lxor (v0 st) (v1 st)) (Z.lxor (v2 st) (v3 st)).

(** CPython up to 3.10 uses SipHash-2-4, from 3.11 on SipHash-1-3. *)
Inductive hash_algorithm := siphash24 | siphash13.

Definition run_algorithm (alg : hash_algorithm) : Z -> Z -> list Z -> Z :=
  match alg with
  | siphash24 => siphash 2 4
  | siphash13 => siphash 1 3
  end.

Record HashSecret := { k0 : Z; k1 : Z }.

(** [lcg_urandom]: the secret's bytes when PYTHONHASHSEED is an integer. *)
Fixpoint lcg_urandom (x : Z) (size : nat) : list Z :=
  match size with
  | O => []
  | S n =>
      let x := wrap32 (wrap32 (x * 214013) + 2531011) in
      Z.land (Z.shiftr x 16) 0xff :: lcg_urandom x n
  end.

Definition secret_of_seed (seed : Z) : HashSecret :=
  if decide (seed = 0) then {| k0 := 0; k1 := 0 |}
  else let buf := lcg_urandom seed 24 in
       {| k0 := le_word (take 8 buf); k1 := le_word (take 8 (drop 8 buf)) |}.

(** The cast of the 64-bit result to the signed [Py_hash_t]. *)
Definition to_Py_hash_t (x : Z) : Z :=
  if decide (2 ^ 63 <= x) then x - 2 ^ 64 else x.

Definition str_bytes (s : string) : list Z :=
  (fun b => Z.of_N (Byte.to_N b)) <$> String.list_byte_of_string s.

Definition _Py_HashBytes (alg : hash_algorithm) (secret : HashSecret) (src : list Z) : Z :=
  if decide (length src = 0%nat) then 0
  else
    let x := to_Py_hash_t (run_algorithm alg (k0 secret) (k1 secret) src) in
    if decide (x = -1) then -2 else x.

(** [hash(s)] for an ASCII [str] (one byte per character). *)
Definition hash (alg : hash_algorithm) (secret : HashSecret) (s : string) : Z :=
  _Py_HashBytes alg secret (str_bytes s).

End PyHash.

(** An interpreter process: which SipHash it was built with and the secret
    it drew at start-up. *)
Record Process := {
  proc_algorithm : PyHash.hash_algorithm;
  proc_secret : PyHash.HashSecret
}.

Definition MIGRATION_TABLE : string := "database_migration".

(** [MIGRATION_LOCK_KEY = hash(f'i48gEtCCfX1lxPpWgVyBYH1z4VQpFNz7+{MIGRATION_TABLE}')],
    evaluated when the module is imported by process [p]. *)
Definition MIGRATION_LOCK_KEY (p : Process) : Z :=
  PyHash.hash (proc_algorithm p) (proc_secret p)
    ("i48gEtCCfX1lxPpWgVyBYH1z4VQpFNz7+" +:+ MIGRATION_TABLE).

(** ** Exceptions and results *)

Definition Path := string.

Inductive exception : Type :=
| KeyError (key : Z)                  (* [versions[version]] on a missing key *)
| ValueError                          (* [max] of an empty collection *)
| OSError (p : Path)                  (* [read_text] *)
| ScriptFailure (text : string)       (* the engine rejects a script *)
| UndefinedTable (name : string)
| NumericValueOutOfRange
| DataException                       (* range lower bound above upper bound *)
| CheckViolation
| UniqueViolation
| ExclusionViolation
| InvalidCatalogName (database : string)
| ScriptParseError
| DuplicateVersionError
| UnlockedScriptError
| LockedScriptModifiedError
| Exception (msg : string).

Inductive result (A : Type) : Type :=
| Return (a : A)
| Raise (e : exception).
Arguments Return {A} a.
Arguments Raise {A} e.

Definition result_bind {A B} (r : result A) (f : A -> result B) : result B :=
  match r with
  | Return a => f a
  | Raise e => Raise e
  end.

(** ** The ledger table

    Rows of [database_migration]; [migrated_at] is a timestamp in
    microseconds. *)
Record MigrationRecord := {
  id : Z;
  from_version : Z;
  to_version : Z;
  migrated_at : Z
}.

Inductive Column := col_id | col_from_version | col_to_version | col_migrated_at.

Definition column_value (c : Column) (r : MigrationRecord) : Z :=
  match c with
  | col_id => id r
  | col_from_version => from_version r
  | col_to_version => to_version r
  | col_migrated_at => migrated_at r
  end.

(** PostgreSQL's [NUMRANGE(lo, hi, '(]')]: lower bound exclusive, upper
    bound inclusive. *)
Inductive numrange := empty_range | range_oc (lower upper : Z).

Definition NUMRANGE_oc (lo hi : Z) : result numrange :=
  if decide (hi < lo) then Raise DataException
  else if decide (lo = hi) then Return empty_range
  else Return (range_oc lo hi).

(** The [&&] operator: an empty range overlaps nothing; otherwise one lower
    bound lies inside the other range. *)
Definition range_overlaps (r1 r2 : numrange) : bool :=
  match r1, r2 with
  | range_oc l1 u1, range_oc l2 u2 =>
      (bool_decide (l2 <= l1) && bool_decide (l1 < u2))
      || (bool_decide (l1 <= l2) && bool_decide (l2 < u1))
  | _, _ => false
  end.

(** The constraints a table definition can carry. *)
Inductive Constraint :=
| INT (c : Column)                            (* 32-bit integer column *)
| PRIMARY_KEY (c : Column)
| CHECK_gt (a b : Column)                     (* CHECK (a > b) *)
| EXCLUDE_NUMRANGE_oc (lo hi : Column).       (* EXCLUDE USING GIST (NUMRANGE(lo, hi, '(]') WITH &&) *)

(** A table keeps its identity counter with its rows, so a transaction that
    is rolled back gives the value back; PostgreSQL would skip it, which no
    read of this program observes. *)
Record Table := {
  tbl_constraints : list Constraint;
  tbl_rows : list MigrationRecord;
  tbl_identity : Z                            (* next value of the identity column *)
}.

Definition row_range (lo hi : Column) (r : MigrationRecord) : result numrange :=
  NUMRANGE_oc (column_value lo r) (column_value hi r).

(** The exclusion constraint against the rows already stored. *)
Fixpoint check_exclusion (lo hi : Column) (rows : list MigrationRecord)
    (new : MigrationRecord) : result unit :=
  match rows with
  | [] => Return tt
  | r :: rows' =>
      result_bind (row_range lo hi new) (fun rn =>
      result_bind (row_range lo hi r) (fun ro =>
      if range_overlaps rn ro then Raise ExclusionViolation
      else check_exclusion lo hi rows' new))
  end.

Definition check_constraint (rows : list MigrationRecord) (new : MigrationRecord)
    (c : Constraint) : result unit :=
  match c with
  | INT col =>
      if decide (- 2 ^ 31 <= column_value col new < 2 ^ 31) then Return tt
      else Raise NumericValueOutOfRange
  | PRIMARY_KEY col =>
      if decide (column_value col new ∈ column_value col <$> rows)
      then Raise UniqueViolation else Return tt
  | CHECK_gt a b =>
      if decide (column_value a new > column_value b new) then Return tt
      else Raise CheckViolation
  | EXCLUDE_NUMRANGE_oc lo hi => check_exclusion lo hi rows new
  end.

Fixpoint check_constraints (cs : list Constraint) (rows : list MigrationRecord)
    (new : MigrationRecord) : result unit :=
  match cs with
  | [] => Return tt
  | c :: cs' =>
      result_bind (check_constraint rows new c) (fun _ =>
      check_constraints cs' rows new)
  end.

(** [INSERT INTO t (from_version, to_version, migrated_at) VALUES ...]: the
    identity column supplies [id]; a row that violates a constraint is
    rejected by the table itself. *)
Definition insert_row (t : Table) (from to at_ : Z) : result Table :=
  let new := {| id := tbl_identity t; from_version := from;
                to_version := to; migrated_at := at_ |} in
  result_bind (check_constraints (tbl_constraints t) (tbl_rows t) new) (fun _ =>
  Return {| tbl_constraints := tbl_constraints t;
            tbl_rows := tbl_rows t ++ [new];
            tbl_identity := tbl_identity t + 1 |}).

(** [SELECT col FROM tbl ORDER BY key DESC LIMIT 1]. *)
Record Query := SELECT_FROM_ORDER_BY_DESC_LIMIT_1 {
  q_select : Column;
  q_from : string;
  q_order_by : Column
}.

Fixpoint insert_desc (key : Column) (r : MigrationRecord)
    (sorted : list MigrationRecord) : list MigrationRecord :=
  match sorted with
  | [] => [r]
  | x :: rest =>
      if decide (column_value key x <= column_value key r) then r :: sorted
      else x :: insert_desc key r rest
  end.

Definition order_by_desc (key : Column) (rows : list MigrationRecord)
  : list MigrationRecord :=
  foldr (insert_desc key) [] rows.

(** First column of the first row, [None] when there is no row. *)
Definition eval_scalar (q : Query) (t : Table) : option Z :=
  column_value (q_select q) <$> head (order_by_desc (q_order_by q) (tbl_rows t)).

Inductive Statement :=
| CREATE_TABLE_IF_NOT_EXISTS (name : string) (constraints : list Constraint)
| SCRIPT (text : string).

(** ** The host of a run

    What the tasks consume from outside [tasks.py]: the SQL engine acting on
    the application schema, the file system with the scripts directory, the
    two pre-flight guards of the [migration] module, the environment flags
    and the interpreter process. *)
Record Environment := { is_dev : bool; is_test : bool }.

Class Host := {
  AppData : Type;
  template0 : AppData;                               (* a freshly created database *)
  engine : string -> AppData -> result AppData;      (* one script as one batch *)
  read_text : Path -> result string;
  scripts_directory : list Path;
  parse_version : Path -> option Z;
  check_no_scripts_not_locked : result unit;
  check_no_locked_scripts_changed : result unit;
  ENV : Environment;
  process : Process
}.

Inductive Color := yellow | green.

Inductive Message :=
| CannotCreateAlreadyExist (database : string)
| CreatedDatabase (database : string)
| DidNotMigrateParallel (db_name : string)
| DidNotMigrateNoScripts (db_name : string) (current_version : Z)
| BeAboutToMigrate (db_name : string) (current_version to_version : Z)
| ApplyingVersion (version : Z)
| Migrated (db_name : string) (current_version to_version : Z).

Inductive Guard := guard_not_locked | guard_locked_changed.

Inductive ShellCommand := psql_list | createdb (database : string).

Inductive Event :=
| EvBegin
| EvCommit
| EvRollback
| EvTryLock (key : Z) (acquired : bool)
| EvExecute (stmt : Statement)
| EvGetScalar (q : Query)
| EvInsert (table : string) (from to at_ : Z)
| EvPrint (c : option Color) (m : Message)
| EvGuard (g : Guard)
| EvShell (cmd : ShellCommand)
| EvConnect
| EvClose.

Record Config := { db_database : string }.

Section Model.
Context {H : Host}.

(** The content of the database: the ledger-shaped tables by name and the
    application schema the scripts act on. *)
Record Content := {
  tables : gmap string Table;
  app_data : AppData
}.

(** [st_committed] is what every session observes; [st_txn] is the working
    copy of this session's open transaction, if any.  Advisory locks held by
    other sessions are [st_foreign_locks]. *)
Record State := {
  st_exists : bool;                 (* the configured database exists on the server *)
  st_committed : Content;
  st_txn : option Content;
  st_foreign_locks : gset Z;
  st_own_locks : gset Z;
  st_clock : Z
}.

Definition with_committed (c : Content) (s : State) : State :=
  {| st_exists := st_exists s; st_committed := c; st_txn := st_txn s;
     st_foreign_locks := st_foreign_locks s; st_own_locks := st_own_locks s;
     st_clock := st_clock s |}.

Definition with_txn (t : option Content) (s : State) : State :=
  {| st_exists := st_exists s; st_committed := st_committed s; st_txn := t;
     st_foreign_locks := st_foreign_locks s; st_own_locks := st_own_locks s;
     st_clock := st_clock s |}.

Definition with_own_locks (l : gset Z) (s : State) : State :=
  {| st_exists := st_exists s; st_committed := st_committed s; st_txn := st_txn s;
     st_foreign_locks := st_foreign_locks s; st_own_locks := l;
     st_clock := st_clock s |}.

Definition with_exists (b : bool) (s : State) : State :=
  {| st_exists := b; st_committed := st_committed s; st_txn := st_txn s;
     st_foreign_locks := st_foreign_locks s; st_own_locks := st_own_locks s;
     st_clock := st_clock s |}.

(** ** Computations: state, exceptions and the events of the run *)
Record Outcome (A : Type) := {
  res : result A;
  final : State;
  events : list Event
}.
Arguments res {A} _.
Arguments final {A} _.
Arguments events {A} _.

Definition M (A : Type) : Type := State -> Outcome A.

Definition ret {A} (a : A) : M A :=
  fun s => {| res := Return a; final := s; events := [] |}.

Definition bind {A B} (m : M A) (f : A -> M B) : M B :=
  fun s =>
    let o := m s in
    match res o with
    | Return a =>
        let o' := f a (final o) in
        {| res := res o'; final := final o'; events := events o ++ events o' |}
    | Raise e => {| res := Raise e; final := final o; events := events o |}
    end.

Definition raise {A} (e : exception) : M A :=
  fun s => {| res := Raise e; final := s; events := [] |}.

Definition lift {A} (r : result A) : M A :=
  fun s => {| res := r; final := s; events := [] |}.

Definition emit (e : Event) : M unit :=
  fun s => {| res := Return tt; final := s; events := [e] |}.

(** [try: body finally: cleanup]. *)
Definition finally {A} (body : M A) (cleanup : M unit) : M A :=
  fun s =>
    let o := body s in
    let o' := cleanup (final o) in
    {| res := match res o' with Return _ => res o | Raise e => Raise e end;
       final := final o'; events := events o ++ events o' |}.

Fixpoint for_each {A} (l : list A) (body : A -> M unit) : M unit :=
  match l with
  | [] => ret tt
  | x :: l' => bind (body x) (fun _ => for_each l' body)
  end.

End Model.

Arguments res {H A} _.
Arguments final {H A} _.
Arguments events {H A} _.

Notation "'let!' x ':=' m 'in' k" := (bind m (fun x => k))
  (at level 10, x name, m at level 100, k at level 200).
Notation "m ;;; k" := (bind m (fun _ => k))
  (at level 100, k at level 200, right associativity).

Section Client.
Context {H : Host}.

(** ** The database client

    Modelled from the spec: the abstract database client capability of
    section 6 ([execute], [getScalar], [insert], [tryTransactionLock] and the
    transaction primitives); [client.py] is not part of the sources.  Inside
    a transaction the client works on the transaction's copy, outside it on
    the committed content. *)
Definition content (s : State) : Content :=
  default (st_committed s) (st_txn s).

Definition set_content (c : Content) (s : State) : State :=
  match st_txn s with
  | Some _ => with_txn (Some c) s
  | None => with_committed c s
  end.

Definition write_content (f : Content -> result Content) : M unit :=
  fun s =>
    match f (content s) with
    | Return c => {| res := Return tt; final := set_content c s; events := [] |}
    | Raise e => {| res := Raise e; final := s; events := [] |}
    end.

Definition exec_statement (stmt : Statement) (c : Content) : result Content :=
  match stmt with
  | CREATE_TABLE_IF_NOT_EXISTS name cs =>
      match tables c !! name with
      | Some _ => Return c
      | None =>
          Return {| tables := <[name := {| tbl_constraints := cs; tbl_rows := [];
                                           tbl_identity := 1 |}]> (tables c);
                    app_data := app_data c |}
      end
  | SCRIPT text =>
      result_bind (engine text (app_data c)) (fun a =>
      Return {| tables := tables c; app_data := a |})
  end.

Definition db_execute (stmt : Statement) : M unit :=
  emit (EvExecute stmt) ;;; write_content (exec_statement stmt).

Definition db_get_scalar (q : Query) : M (option Z) :=
  emit (EvGetScalar q) ;;;
  fun s =>
    match tables (content s) !! q_from q with
    | Some t => ret (eval_scalar q t) s
    | None => raise (UndefinedTable (q_from q)) s
    end.

Definition insert_into (table : string) (from to at_ : Z) (c : Content)
  : result Content :=
  match tables c !! table with
  | Some t =>
      result_bind (insert_row t from to at_) (fun t' =>
      Return {| tables := <[table := t']> (tables c); app_data := app_data c |})
  | None => Raise (UndefinedTable table)
  end.

Definition db_insert (table : string) (from to at_ : Z) : M unit :=
  emit (EvInsert table from to at_) ;;; write_content (insert_into table from to at_).

(** Non-blocking, transaction-scoped: [false] when another session holds the
    key; outside a transaction the lock is gone with the statement. *)
Definition db_try_transaction_lock (key : Z) : M bool :=
  fun s =>
    if decide (key ∈ st_foreign_locks s)
    then {| res := Return false; final := s; events := [EvTryLock key false] |}
    else {| res := Return true;
            final := match st_txn s with
                     | Some _ => with_own_locks ({[key]} ∪ st_own_locks s) s
                     | None => s
                     end;
            events := [EvTryLock key true] |}.

Definition begin : M unit :=
  fun s => {| res := Return tt; final := with_txn (Some (st_committed s)) s;
              events := [EvBegin] |}.

Definition commit : M unit :=
  fun s => {| res := Return tt;
              final := with_own_locks ∅ (with_txn None (with_committed (content s) s));
              events := [EvCommit] |}.

Definition rollback : M unit :=
  fun s => {| res := Return tt; final := with_own_locks ∅ (with_txn None s);
              events := [EvRollback] |}.

(** ** The transactional executor

    Modelled from the spec: [runTransactional] of section 4.4, the
    [@transactional] decorator of [transaction.py], which is not part of the
    sources.  It begins a transaction, commits on normal return, rolls back
    and re-raises on failure, and reuses a transaction that is already
    active. *)
Definition transactional {A} (fn : M A) : M A :=
  fun s =>
    match st_txn s with
    | Some _ => fn s
    | None =>
        let o := (begin ;;; fn) s in
        match res o with
        | Return a =>
            let o' := commit (final o) in
            {| res := Return a; final := final o'; events := events o ++ events o' |}
        | Raise e =>
            let o' := rollback (final o) in
            {| res := Raise e; final := final o'; events := events o ++ events o' |}
        end
    end.

(** ** The version script loader

    Modelled from the spec: [listAvailableVersions] of section 4.1,
    [load_versions] of [migration.py], which is not part of the sources.
    Every file name of the scripts directory must encode a strictly positive
    version, no two the same; the scripts above [after] are returned. *)
Fixpoint scan_scripts (files : list Path) : result (gmap Z Path) :=
  match files with
  | [] => Return ∅
  | f :: files' =>
      match parse_version f with
      | Some v =>
          if decide (0 < v) then
            result_bind (scan_scripts files') (fun m =>
            match m !! v with
            | Some _ => Raise DuplicateVersionError
            | None => Return (<[v := f]> m)
            end)
          else Raise ScriptParseError
      | None => Raise ScriptParseError
      end
  end.

Definition load_versions (after : Z) : result (gmap Z Path) :=
  result_bind (scan_scripts scripts_directory) (fun m =>
  Return (filter (fun kv => after < kv.1) m)).

End Client.

(** ** tasks.py

    The functions of the [migrate] command, in the order of the file.  An
    [await] is a step of the computation; [asyncio.run] runs it to its end. *)
Section Tasks.
Context {H : Host}.

Definition print (c : option Color) (m : Message) : M unit :=
  emit (EvPrint c m).

(** Python built-ins used by the tasks. *)
Definition dict_getitem (d : gmap Z Path) (k : Z) : result Path :=
  match d !! k with
  | Some p => Return p
  | None => Raise (KeyError k)
  end.

Definition py_max (l : list Z) : result Z :=
  match l with
  | [] => Raise ValueError
  | x :: l' => Return (foldl Z.max x l')
  end.

Definition py_range (start stop : Z) : list Z := seqZ start (stop - start).

(** [x or d]: [d] when [x] is [None] or [0]. *)
Definition py_or (x : option Z) (d : Z) : Z :=
  match x with
  | Some v => if decide (v = 0) then d else v
  | None => d
  end.

(** [dt.datetime.now(dt.timezone.utc)]. *)
Definition utcnow : M Z := fun s => ret (st_clock s) s.

(** [is_database_existed]: the [psql -lqt | ... | wc -l] pipeline. *)
Definition is_database_existed (c : Config) : M bool :=
  emit (EvShell psql_list) ;;; fun s => ret (st_exists s) s.

Definition run_createdb (c : Config) : M unit :=
  emit (EvShell (createdb (db_database c))) ;;;
  fun s => ret tt (with_exists true
                     (with_committed {| tables := ∅; app_data := template0 |} s)).

Definition create_database_if_not_exist (c : Config) : M unit :=
  let! existed := is_database_existed c in
  if existed
  then print (Some yellow) (CannotCreateAlreadyExist (db_database c))
  else run_createdb c ;;;
       print (Some green) (CreatedDatabase (db_database c)).

(** The table definition, constraint by constraint in the order of the
    statement; [NOT NULL] holds of every row by construction, and
    [migrated_at] carries no constraint. *)
Definition create_database_migration_table_if_not_exist : M unit :=
  db_execute (CREATE_TABLE_IF_NOT_EXISTS MIGRATION_TABLE
    [ INT col_id; PRIMARY_KEY col_id;
      INT col_from_version;
      INT col_to_version;
      CHECK_gt col_to_version col_from_version;
      EXCLUDE_NUMRANGE_oc col_from_version col_to_version ]).

Definition execute_migration_scripts_body (from_version to_version : Z)
    (versions : gmap Z Path) : M unit :=
  for_each (py_range (from_version + 1) (to_version + 1)) (fun version =>
    print None (ApplyingVersion version) ;;;
    let! path := lift (dict_getitem versions version) in
    let! text := lift (read_text path) in
    db_execute (SCRIPT text)) ;;;
  let! now := utcnow in
  db_insert "database_migration" from_version to_version now.

Definition execute_migration_scripts (from_version to_version : Z)
    (versions : gmap Z Path) : M unit :=
  transactional (execute_migration_scripts_body from_version to_version versions).

(** The current-version read of [_migrate] (lines 141-142). *)
Definition currentVersion : M Z :=
  let! v := db_get_scalar (SELECT_FROM_ORDER_BY_DESC_LIMIT_1
                             col_to_version "database_migration" col_id) in
  ret (py_or v 0).

Definition _migrate_body (db_name : string) : M unit :=
  let! locked := db_try_transaction_lock (MIGRATION_LOCK_KEY process) in
  if negb locked
  then print (Some yellow) (DidNotMigrateParallel db_name)
  else
    create_database_migration_table_if_not_exist ;;;
    let! current_version := currentVersion in
    let! new_versions := lift (load_versions current_version) in
    if decide (new_versions = ∅)
    then print (Some yellow) (DidNotMigrateNoScripts db_name current_version)
    else
      let! to_version := lift (py_max (map_to_list new_versions).*1) in
      print None (BeAboutToMigrate db_name current_version to_version) ;;;
      execute_migration_scripts current_version to_version new_versions ;;;
      print (Some green) (Migrated db_name current_version to_version).

Definition _migrate (db_name : string) : M unit :=
  transactional (_migrate_body db_name).

(** [async with DBPool(...) as pool: async with pool.acquire() as db:]
    the connection is opened before the body and closed after it, also when
    the body raises.  The database of [settings.DB] is the configured one
    ([db_tasks.configure]). *)
Definition connect (database : string) : M unit :=
  fun s =>
    if st_exists s then emit EvConnect s
    else raise (InvalidCatalogName database) s.

Definition _migrate_database (db_name : string) : M unit :=
  connect db_name ;;; finally (_migrate db_name) (emit EvClose).

Definition migrate_database (c : Config) : M unit :=
  (if negb (is_dev ENV || is_test ENV)
   then (emit (EvGuard guard_not_locked) ;;; lift check_no_scripts_not_locked) ;;;
        (emit (EvGuard guard_locked_changed) ;;; lift check_no_locked_scripts_changed)
   else ret tt) ;;;
  create_database_if_not_exist c ;;;
  _migrate_database (db_database c).

(** [func] of tests/database/test_transaction.py; its insert and its update
    on the [organization] table are statements for the engine. *)
Definition test_func (raise_exception : bool) : M unit :=
  transactional (
    db_execute (SCRIPT "INSERT INTO organization (name) VALUES ('ORG#1') ON CONFLICT (name) DO NOTHING") ;;;
    (if raise_exception then raise (Exception "") else ret tt) ;;;
    db_execute (SCRIPT "UPDATE organization SET name='NEW-ORG#1' WHERE name='ORG#1'")).

End Tasks.

(** ** A concrete host

    An application schema with an [organization] table (the names it holds)
    and the list of script texts applied so far; a script whose text starts
    with [RAISE] is rejected by the engine.  The scripts directory is given
    as (file name, version encoded in the name, text). *)
Record SampleData := {
  organization : list string;
  applied : list string
}.

Definition sample_engine (text : string) (d : SampleData) : result SampleData :=
  if decide (text = "INSERT INTO organization (name) VALUES ('ORG#1') ON CONFLICT (name) DO NOTHING")
  then Return {| organization :=
                   if decide ("ORG#1" ∈ organization d) then organization d
                   else organization d ++ ["ORG#1"];
                 applied := applied d |}
  else if decide (text = "UPDATE organization SET name='NEW-ORG#1' WHERE name='ORG#1'")
  then Return {| organization :=
                   (fun n => if decide (n = "ORG#1") then "NEW-ORG#1" else n)
                     <$> organization d;
                 applied := applied d |}
  else if String.prefix "RAISE" text then Raise (ScriptFailure text)
  else Return {| organization := organization d; applied := applied d ++ [text] |}.

Definition SampleFile : Type := Path * option Z * string.

Definition sample_lookup (files : list SampleFile) (p : Path) : option SampleFile :=
  head (filter (fun f => f.1.1 = p) files).

Definition sample_host (files : list SampleFile) (guard1 guard2 : result unit)
    (env : Environment) (seed : Z) : Host :=
  {| AppData := SampleData;
     template0 := {| organization := []; applied := [] |};
     engine := sample_engine;
     read_text := fun p => match sample_lookup files p with
                           | Some f => Return f.2
                           | None => Raise (OSError p)
                           end;
     scripts_directory := (fun f => f.1.1) <$> files;
     parse_version := fun p => sample_lookup files p ≫= (fun f => f.1.2);
     check_no_scripts_not_locked := guard1;
     check_no_locked_scripts_changed := guard2;
     ENV := env;
     process := {| proc_algorithm := PyHash.siphash13;
                   proc_secret := PyHash.secret_of_seed seed |} |}.

Definition production : Environment := {| is_dev := false; is_test := false |}.
Definition development : Environment := {| is_dev := true; is_test := false |}.

Definition files_123 : list SampleFile :=
  [ ("1.sql", Some 1, "CREATE TABLE organization");
    ("2.sql", Some 2, "ALTER TABLE organization");
    ("3.sql", Some 3, "CREATE INDEX") ].

Definition files_13 : list SampleFile :=
  [ ("1.sql", Some 1, "CREATE TABLE organization");
    ("3.sql", Some 3, "CREATE INDEX") ].

Definition files_13_failing : list SampleFile :=
  [ ("1.sql", Some 1, "RAISE division by zero");
    ("3.sql", Some 3, "CREATE INDEX") ].

Definition files_123_failing : list SampleFile :=
  [ ("1.sql", Some 1, "CREATE TABLE organization");
    ("2.sql", Some 2, "RAISE syntax error");
    ("3.sql", Some 3, "CREATE INDEX") ].

Definition host_123 : Host := sample_host files_123 (Return tt) (Return tt) production 1.
Definition host_13 : Host := sample_host files_13 (Return tt) (Return tt) production 1.
Definition host_13_failing : Host :=
  sample_host files_13_failing (Return tt) (Return tt) production 1.
Definition host_123_failing : Host :=
  sample_host files_123_failing (Return tt) (Return tt) production 1.

(** An existing, empty database with no open transaction. *)
Definition fresh_state {H : Host} (foreign : gset Z) : State :=
  {| st_exists := true;
     st_committed := {| tables := ∅; app_data := template0 |};
     st_txn := None;
     st_foreign_locks := foreign;
     st_own_locks := ∅;
     st_clock := 1572480000000000 |}.

(** ** What the claims speak about *)

(** The intervals [(a, b]] and [(c, d]] share a version. *)
Definition interval_overlap (a b c d : Z) : Prop :=
  exists x, (a < x <= b) /\ (c < x <= d).

Definition rows_overlap (r1 r2 : MigrationRecord) : Prop :=
  interval_overlap (from_version r1) (to_version r1)
                   (from_version r2) (to_version r2).

(** Every row spans at least one version and no two rows overlap. *)
Definition ledger_invariant (rows : list MigrationRecord) : Prop :=
  Forall (fun r => from_version r < to_version r) rows /\
  forall (i j : nat) r1 r2,
    rows !! i = Some r1 -> rows !! j = Some r2 -> i <> j -> ~ rows_overlap r1 r2.

(** The constraints of the ledger's table definition. *)
Definition ledger_constraints : list Constraint :=
  [ INT col_id; PRIMARY_KEY col_id;
    INT col_from_version;
    INT col_to_version;
    CHECK_gt col_to_version col_from_version;
    EXCLUDE_NUMRANGE_oc col_from_version col_to_version ].

(** The identity column is ahead of every stored [id]: true of a table that
    was only ever filled through [insert_row]. *)
Definition identity_ahead (t : Table) : Prop :=
  Forall (fun r => id r < tbl_identity t) (tbl_rows t).

Definition is_write (e : Event) : bool :=
  match e with
  | EvExecute _ | EvInsert _ _ _ _ => true
  | _ => false
  end.

Definition applies_script (e : Event) : bool :=
  match e with
  | EvExecute (SCRIPT _) | EvInsert _ _ _ _ => true
  | _ => false
  end.

Definition is_guard (e : Event) : bool :=
  match e with
  | EvGuard _ => true
  | _ => false
  end.

Section Vocabulary.
Context {H : Host}.

(** The state right after [BEGIN]. *)
Definition begin_state (s : State) : State :=
  with_txn (Some (st_committed s)) s.

(** A computation that, run inside an open transaction, keeps it open and
    leaves the committed content alone: every client call is one, and they
    compose. *)
Definition inside_txn {A} (m : M A) : Prop :=
  forall s, is_Some (st_txn s) ->
    is_Some (st_txn (final (m s))) /\ st_committed (final (m s)) = st_committed s.

Definition only_events {A} (P : Event -> bool) (m : M A) : Prop :=
  forall s, forallb P (events (m s)) = true.

(** The content once the ledger table is ensured. *)
Definition ensure_ledger (c : Content) : Content :=
  match tables c !! MIGRATION_TABLE with
  | Some _ => c
  | None =>
      {| tables := <[MIGRATION_TABLE := {| tbl_constraints := ledger_constraints;
                                           tbl_rows := []; tbl_identity := 1 |}]> (tables c);
         app_data := app_data c |}
  end.

Definition ledger_rows (c : Content) : list MigrationRecord :=
  match tables c !! "database_migration" with
  | Some t => tbl_rows t
  | None => []
  end.

(** The version a run starts from: what [currentVersion] reads once the
    table is ensured. *)
Definition current_version_of (c : Content) : Z :=
  py_or (to_version <$> head (order_by_desc col_id (ledger_rows c))) 0.

Definition identity_ahead_in (c : Content) : Prop :=
  forall t, tables c !! "database_migration" = Some t -> identity_ahead t.

(** The effect of the loop of [execute_migration_scripts] on the
    application schema. *)
Fixpoint apply_scripts (versions : gmap Z Path) (l : list Z) (a : AppData)
  : result AppData :=
  match l with
  | [] => Return a
  | v :: l' =>
      result_bind (dict_getitem versions v) (fun path =>
      result_bind (read_text path) (fun text =>
      result_bind (engine text a) (fun a' =>
      apply_scripts versions l' a')))
  end.

(** The events of a loop that runs to its end. *)
Fixpoint script_events (versions : gmap Z Path) (l : list Z) : list Event :=
  match l with
  | [] => []
  | v :: l' =>
      match result_bind (dict_getitem versions v) read_text with
      | Return text =>
          EvPrint None (ApplyingVersion v) :: EvExecute (SCRIPT text)
            :: script_events versions l'
      | Raise _ => []
      end
  end.

(** The statement and the query [_migrate] issues. *)
Definition ledger_ddl : Statement :=
  CREATE_TABLE_IF_NOT_EXISTS MIGRATION_TABLE ledger_constraints.

Definition version_query : Query :=
  SELECT_FROM_ORDER_BY_DESC_LIMIT_1 col_to_version "database_migration" col_id.

(** The events of a run that holds the lock, up to the version read. *)
Definition run_prefix : list Event :=
  [ EvTryLock (MIGRATION_LOCK_KEY process) true;
    EvExecute ledger_ddl;
    EvGetScalar version_query ].

Definition is_max_version (v : Z) (pending : gmap Z Path) : Prop :=
  is_Some (pending !! v) /\ forall k, is_Some (pending !! k) -> k <= v.

(** A run that reached the end of [_migrate]: it returned and reported the
    migration. *)
Definition successful (o : Outcome unit) : Prop :=
  res o = Return tt /\
  exists db_name from to, EvPrint (Some green) (Migrated db_name from to) ∈ events o.

End Vocabulary.

Definition not_guard (e : Event) : bool := negb (is_guard e).

(** ** Sample ledgers *)

(** The ledger after migrations to version 3 and then to version 5. *)
Definition ledger_035 : Table :=
  {| tbl_constraints := ledger_constraints;
     tbl_rows := [ {| id := 1; from_version := 0; to_version := 3;
                      migrated_at := 1572480000000000 |};
                   {| id := 2; from_version := 3; to_version := 5;
                      migrated_at := 1572566400000000 |} ];
     tbl_identity := 3 |}.

Definition state_035 {H : Host} : State :=
  {| st_exists := true;
     st_committed := {| tables := {["database_migration" := ledger_035]};
                        app_data := template0 |};
     st_txn := None;
     st_foreign_locks := ∅;
     st_own_locks := ∅;
     st_clock := 1572652800000000 |}.

(** ** drop and reset (tasks.py, lines 36-49 and 64-71)

    The two commands print messages and issue a shell command of their own;
    their events extend those of the migration.  The shell commands are
    taken to succeed, as [createdb] is. *)
Inductive TaskMessage :=
| CannotDropNotFound (database : string)
| DroppedDatabase (database : string)
| ResetDatabase (database : string).

Inductive TaskEvent :=
| EvCore (e : Event)
| EvDropdb (database : string)
| EvTaskPrint (c : option Color) (m : TaskMessage).

Section DropReset.
Context {H : Host}.

Record TaskOutcome (A : Type) := {
  t_res : result A;
  t_final : State;
  t_events : list TaskEvent
}.
Arguments t_res {A} _.
Arguments t_final {A} _.
Arguments t_events {A} _.

Definition Task (A : Type) : Type := State -> TaskOutcome A.

(** A computation of the migration, with its events, as a step of a task. *)
Definition core {A} (m : M A) : Task A :=
  fun s =>
    let o := m s in
    {| t_res := res o; t_final := final o; t_events := EvCore <$> events o |}.

Definition task_bind {A B} (m : Task A) (f : A -> Task B) : Task B :=
  fun s =>
    let o := m s in
    match t_res o with
    | Return a =>
        let o' := f a (t_final o) in
        {| t_res := t_res o'; t_final := t_final o';
           t_events := t_events o ++ t_events o' |}
    | Raise e => {| t_res := Raise e; t_final := t_final o; t_events := t_events o |}
    end.

Definition task_raise {A} (e : exception) : Task A :=
  fun s => {| t_res := Raise e; t_final := s; t_events := [] |}.

Definition task_emit (e : TaskEvent) : Task unit :=
  fun s => {| t_res := Return tt; t_final := s; t_events := [e] |}.

Definition run_dropdb (c : Config) : Task unit :=
  fun s => {| t_res := Return tt; t_final := with_exists false s;
              t_events := [EvDropdb (db_database c)] |}.

Definition drop_database (c : Config) : Task unit :=
  if negb (is_dev ENV || is_test ENV)
  then task_raise
         (Exception "Cannot drop database under environments other than dev or test")
  else
    task_bind (core (is_database_existed c)) (fun existed =>
    if negb existed
    then task_emit (EvTaskPrint (Some yellow) (CannotDropNotFound (db_database c)))
    else task_bind (run_dropdb c) (fun _ =>
         task_emit (EvTaskPrint (Some green) (DroppedDatabase (db_database c))))).


End DropReset.

Arguments t_res {H A} _.
Arguments t_final {H A} _.
Arguments t_events {H A} _.

(** ** More sample hosts and states *)

(** A dev host whose guards would raise. *)
Definition host_dev : Host :=
  sample_host files_123 (Raise UnlockedScriptError) (Raise LockedScriptModifiedError)
    development 1.



Definition config_fas : Config := {| db_database := "fas" |}.


(** The four words of a SipHash state are 64-bit words. *)
Definition sip_words (st : PyHash.sipstate) : Prop :=
  (0 <= PyHash.v0 st < 2 ^ 64) /\ (0 <= PyHash.v1 st < 2 ^ 64)
  /\ (0 <= PyHash.v2 st < 2 ^ 64) /\ (0 <= PyHash.v3 st < 2 ^ 64).

(** ** The shape of a ledger this program has filled *)



Section Shape.
Context {H : Host}.





End Shape.

(** * Properties *)

(** ** The advisory-lock key *)

Lemma lock_key_of_seed_1 :
  MIGRATION_LOCK_KEY {| proc_algorithm := PyHash.siphash13;
                        proc_secret := PyHash.secret_of_seed 1 |}
  = 4074755411858632299.
Proof. vm_compute. reflexivity. Qed.

Lemma lock_key_of_seed_2 :
  MIGRATION_LOCK_KEY {| proc_algorithm := PyHash.siphash13;
                        proc_secret := PyHash.secret_of_seed 2 |}
  = 4555401668328678071.
Proof. vm_compute. reflexivity. Qed.

(** C8 (the code departs from it): the lock key is the interpreter's salted
    [hash] of the constant string, so two processes that drew different hash
    secrets compute different keys, with either SipHash variant. *)
Theorem lock_key_depends_on_process :
  forall alg,
    MIGRATION_LOCK_KEY {| proc_algorithm := alg;
                          proc_secret := PyHash.secret_of_seed 1 |}
    <> MIGRATION_LOCK_KEY {| proc_algorithm := alg;
                             proc_secret := PyHash.secret_of_seed 2 |}.
Proof. intros [|]; vm_compute; discriminate. Qed.

(** ** The ledger table *)

Lemma py_or_0 (v : option Z) : py_or v 0 = default 0 v.
Proof. destruct v as [v|]; simpl; [|done]. case_decide; congruence. Qed.

Lemma range_overlaps_spec l1 u1 l2 u2 :
  l1 < u1 -> l2 < u2 ->
  range_overlaps (range_oc l1 u1) (range_oc l2 u2) = true
  <-> interval_overlap l1 u1 l2 u2.
Proof.
  intros H1 H2. unfold range_overlaps, interval_overlap.
  rewrite orb_true_iff, !andb_true_iff, !bool_decide_eq_true.
  split.
  - intros [[Ha Hb]|[Ha Hb]]; exists (Z.min u1 u2); lia.
  - intros (x & Hx1 & Hx2). destruct (decide (l2 <= l1)); [left|right]; lia.
Qed.

Lemma rows_overlap_sym r1 r2 : rows_overlap r1 r2 -> rows_overlap r2 r1.
Proof. intros (x & ? & ?). exists x. tauto. Qed.

Lemma check_exclusion_spec rows new :
  from_version new < to_version new ->
  Forall (fun r => from_version r < to_version r) rows ->
  (check_exclusion col_from_version col_to_version rows new = Return tt
   /\ forall r, r ∈ rows -> ~ rows_overlap new r)
  \/ (check_exclusion col_from_version col_to_version rows new = Raise ExclusionViolation
      /\ exists r, r ∈ rows /\ rows_overlap new r).
Proof.
  intros Hnew. induction 1 as [|r rows Hr Hrows IH]; simpl.
  - left. split; [done|]. intros r Hin. by apply elem_of_nil in Hin.
  - unfold row_range, NUMRANGE_oc; simpl.
    repeat case_decide; try lia. cbn [result_bind].
    destruct (range_overlaps _ _) eqn:Hov.
    + right. split; [done|]. exists r. split; [by left|].
      by apply range_overlaps_spec in Hov.
    + destruct IH as [[-> IH]|[-> (r' & Hin & Hov')]].
      * left. split; [done|]. intros r' [->|Hin]%elem_of_cons; [|by apply IH].
        intros Hov'. apply range_overlaps_spec in Hov'; [congruence|done..].
      * right. split; [done|]. exists r'. split; [by right|done].
Qed.

Lemma ledger_constraints_accept rows new :
  check_constraints ledger_constraints rows new = Return tt ->
  (id new ∉ id <$> rows)
  /\ from_version new < to_version new
  /\ check_exclusion col_from_version col_to_version rows new = Return tt.
Proof.
  unfold ledger_constraints, check_constraints, check_constraint; simpl.
  repeat (case_decide; cbn [result_bind]; try discriminate).
  intros Hex. split; [done|]. split; [lia|].
  by destruct (check_exclusion _ _ _ _) as [[]|].
Qed.

Lemma insert_row_inv t from to at_ t' :
  insert_row t from to at_ = Return t' ->
  let new := {| id := tbl_identity t; from_version := from;
                to_version := to; migrated_at := at_ |} in
  check_constraints (tbl_constraints t) (tbl_rows t) new = Return tt
  /\ t' = {| tbl_constraints := tbl_constraints t;
             tbl_rows := tbl_rows t ++ [new];
             tbl_identity := tbl_identity t + 1 |}.
Proof.
  unfold insert_row. destruct (check_constraints _ _ _) as [[]|e]; simpl; [|done].
  intros [= <-]. done.
Qed.

Lemma ledger_invariant_snoc rows new :
  ledger_invariant rows ->
  from_version new < to_version new ->
  (forall r, r ∈ rows -> ~ rows_overlap new r) ->
  ledger_invariant (rows ++ [new]).
Proof.
  intros [Hv Hd] Hnew Hfree. split.
  - apply Forall_app. split; [done|]. by constructor.
  - intros i j r1 r2 Hi Hj Hij.
    apply lookup_snoc_Some in Hi as [[Hi1 Hi2]|[Hi1 ->]];
      apply lookup_snoc_Some in Hj as [[Hj1 Hj2]|[Hj1 ->]].
    + by eapply Hd.
    + intros Hov%rows_overlap_sym. eapply Hfree; [|done].
      by eapply list_elem_of_lookup_2.
    + eapply Hfree. by eapply list_elem_of_lookup_2.
    + lia.
Qed.

Section TableProperties.
Context {H : Host}.

Lemma content_set_content (c : Content) (s : State) :
  content (set_content c s) = c.
Proof.
  unfold content, set_content.
  destruct (st_txn s) eqn:E; simpl; [done|by rewrite E].
Qed.

(** C5: the table definition issued by
    [create_database_migration_table_if_not_exist] carries the constraints,
    and the table itself rejects a row with [to_version <= from_version] and
    a row whose interval [(from_version, to_version]] overlaps a stored one;
    whatever is accepted keeps every row valid and all rows disjoint. *)
Theorem ledger_schema_enforced (s : State) (t : Table) (from to at_ : Z) :
  tables (content s) !! "database_migration" = Some t ->
  tbl_constraints t = ledger_constraints ->
  ledger_invariant (tbl_rows t) ->
  let o := db_insert "database_migration" from to at_ s in
  (forall s0, tables (content s0) !! MIGRATION_TABLE = None ->
     let o0 := create_database_migration_table_if_not_exist s0 in
     res o0 = Return tt /\
     tables (content (final o0)) !! "database_migration"
     = Some {| tbl_constraints := ledger_constraints; tbl_rows := [];
               tbl_identity := 1 |})
  /\ (to <= from ->
      (exists e, insert_row t from to at_ = Raise e)
      /\ (exists e, res o = Raise e) /\ final o = s)
  /\ ((exists r, r ∈ tbl_rows t /\
         interval_overlap from to (from_version r) (to_version r)) ->
      (exists e, insert_row t from to at_ = Raise e)
      /\ (exists e, res o = Raise e) /\ final o = s)
  /\ (forall t', insert_row t from to at_ = Return t' ->
      tbl_constraints t' = ledger_constraints
      /\ ledger_invariant (tbl_rows t')
      /\ res o = Return tt
      /\ tables (content (final o)) !! "database_migration" = Some t').
Proof.
  intros Ht Hc Hinv o.
  assert (Hclient : forall e, insert_row t from to at_ = Raise e ->
                              res o = Raise e /\ final o = s).
  { intros e He. subst o. unfold db_insert, bind, emit, write_content, insert_into.
    simpl. rewrite Ht, He. simpl. done. }
  assert (Hrej : forall t', insert_row t from to at_ = Return t' ->
                   from < to /\ forall r, r ∈ tbl_rows t ->
                     ~ interval_overlap from to (from_version r) (to_version r)).
  { intros t' Hins. apply insert_row_inv in Hins as [Hchk _]. rewrite Hc in Hchk.
    apply ledger_constraints_accept in Hchk as (_ & Hlt & Hex). simpl in Hlt.
    split; [done|].
    destruct (check_exclusion_spec (tbl_rows t)
                {| id := tbl_identity t; from_version := from;
                   to_version := to; migrated_at := at_ |}) as [[_ Hok]|[Hbad _]];
      [done|apply Hinv| |congruence].
    intros r Hr. apply (Hok r Hr). }
  split; [|split; [|split]].
  - intros s0 Hnone o0. subst o0.
    unfold create_database_migration_table_if_not_exist, db_execute, bind, emit,
      write_content, exec_statement. simpl. rewrite Hnone. simpl.
    split; [done|]. rewrite content_set_content. simpl.
    unfold MIGRATION_TABLE. by rewrite lookup_insert_eq.
  - intros Hle. destruct (insert_row t from to at_) as [t'|e] eqn:Hins.
    + destruct (Hrej t' eq_refl). lia.
    + destruct (Hclient e eq_refl). eauto.
  - intros (r & Hr & Hov). destruct (insert_row t from to at_) as [t'|e] eqn:Hins.
    + destruct (Hrej t' eq_refl) as [_ Hfree]. by destruct (Hfree r Hr).
    + destruct (Hclient e eq_refl). eauto.
  - intros t' Hins. pose proof (Hrej t' Hins) as [Hlt Hfree].
    pose proof Hins as Hins'. apply insert_row_inv in Hins' as [_ ->]. simpl.
    split; [done|]. split.
    + apply ledger_invariant_snoc; [done..|]. intros r Hr. by apply Hfree.
    + subst o. unfold db_insert, bind, emit, write_content, insert_into.
      simpl. rewrite Ht, Hins. simpl. split; [done|].
      rewrite content_set_content. simpl. by rewrite lookup_insert_eq.
Qed.

End TableProperties.

(** ** The current-version read *)

Lemma head_insert_desc key r l :
  head (insert_desc key r l)
  = Some (match head l with
          | Some y => if decide (column_value key y <= column_value key r) then r else y
          | None => r
          end).
Proof. destruct l; simpl; [done|]. by case_decide. Qed.

Lemma head_order_by_desc key rows :
  match head (order_by_desc key rows) with
  | None => rows = []
  | Some r => r ∈ rows /\ forall x, x ∈ rows -> column_value key x <= column_value key r
  end.
Proof.
  induction rows as [|x rows IH]; simpl; [done|].
  rewrite head_insert_desc.
  destruct (head (order_by_desc key rows)) as [y|].
  - destruct IH as [Hy Hmax]. case_decide.
    + split; [by left|]. intros z [->|Hz]%elem_of_cons; [lia|].
      specialize (Hmax z Hz). lia.
    + split; [by right|]. intros z [->|Hz]%elem_of_cons; [lia|by apply Hmax].
  - subst. split; [by left|]. intros z [->|Hz]%elem_of_cons; [lia|].
    by apply elem_of_nil in Hz.
Qed.

Lemma head_order_by_desc_snoc rows new :
  Forall (fun r => id r < id new) rows ->
  head (order_by_desc col_id (rows ++ [new])) = Some new.
Proof.
  intros Hlt. pose proof (head_order_by_desc col_id (rows ++ [new])) as Hh.
  destruct (head _) as [r|].
  - destruct Hh as [[Hr| ->%list_elem_of_singleton]%elem_of_app Hmax]; [|done].
    rewrite Forall_forall in Hlt. specialize (Hlt r Hr).
    specialize (Hmax new). simpl in Hmax.
    assert (id new <= id r) by (apply Hmax; apply elem_of_app; right; by left). lia.
  - by destruct rows.
Qed.

Section CurrentVersion.
Context {H : Host}.

Lemma currentVersion_run (s : State) (t : Table) :
  tables (content s) !! "database_migration" = Some t ->
  currentVersion s
  = {| res := Return (current_version_of (content s)); final := s;
       events := [EvGetScalar (SELECT_FROM_ORDER_BY_DESC_LIMIT_1
                                 col_to_version "database_migration" col_id)] |}.
Proof.
  intros Ht. unfold currentVersion, db_get_scalar, bind, emit, ret. simpl.
  rewrite Ht. simpl. unfold current_version_of, ledger_rows, eval_scalar.
  by rewrite Ht.
Qed.

(** C6: on an existing ledger table the current-version read returns the
    [to_version] of a row whose [id] is the largest, and [0] when the table
    has no row; it changes nothing. *)
Theorem currentVersion_largest_id (s : State) (t : Table) :
  tables (content s) !! "database_migration" = Some t ->
  let o := currentVersion s in
  final o = s
  /\ (tbl_rows t = [] -> res o = Return 0)
  /\ (tbl_rows t <> [] ->
      exists r, r ∈ tbl_rows t
                /\ (forall x, x ∈ tbl_rows t -> id x <= id r)
                /\ res o = Return (to_version r)).
Proof.
  intros Ht o. subst o. rewrite (currentVersion_run s t Ht). simpl.
  unfold current_version_of, ledger_rows. rewrite Ht, py_or_0.
  split; [done|]. split.
  - intros ->. done.
  - intros Hne. pose proof (head_order_by_desc col_id (tbl_rows t)) as Hh.
    destruct (head _) as [r|]; [|done].
    destruct Hh as [Hr Hmax]. exists r. simpl. eauto.
Qed.

End CurrentVersion.

(** ** Transactions *)

Create HintDb txn.

Section Transactions.
Context {H : Host}.

Lemma inside_ret {A} (a : A) : inside_txn (ret a).
Proof. by intros s Hs. Qed.

Lemma inside_raise {A} (e : exception) : inside_txn (@raise _ A e).
Proof. by intros s Hs. Qed.

Lemma inside_lift {A} (r : result A) : inside_txn (lift r).
Proof. by intros s Hs. Qed.

Lemma inside_emit (e : Event) : inside_txn (emit e).
Proof. by intros s Hs. Qed.

Lemma inside_bind {A B} (m : M A) (f : A -> M B) :
  inside_txn m -> (forall a, inside_txn (f a)) -> inside_txn (bind m f).
Proof.
  intros Hm Hf s Hs. unfold bind. destruct (Hm s Hs) as [H1 H2].
  destruct (res (m s)) as [a|e]; simpl; [|done].
  destruct (Hf a _ H1) as [H3 H4]. split; [done|congruence].
Qed.

Lemma inside_for_each {A} (l : list A) (body : A -> M unit) :
  (forall x, inside_txn (body x)) -> inside_txn (for_each l body).
Proof.
  intros Hb. induction l as [|x l IH]; simpl.
  - apply inside_ret.
  - apply inside_bind; [apply Hb|]. intros _. apply IH.
Qed.

Lemma inside_write_content f : inside_txn (write_content f).
Proof.
  intros s [c Hc]. unfold write_content. destruct (f (content s)); simpl; [|by rewrite Hc].
  unfold set_content. rewrite Hc. simpl. eauto.
Qed.

Lemma inside_db_execute stmt : inside_txn (db_execute stmt).
Proof.
  apply inside_bind; [apply inside_emit|]. intros _. apply inside_write_content.
Qed.

Lemma inside_db_insert table from to at_ : inside_txn (db_insert table from to at_).
Proof.
  apply inside_bind; [apply inside_emit|]. intros _. apply inside_write_content.
Qed.

Lemma inside_db_get_scalar q : inside_txn (db_get_scalar q).
Proof.
  apply inside_bind; [apply inside_emit|]. intros _ s Hs.
  by destruct (tables (content s) !! q_from q).
Qed.

Lemma inside_db_try_transaction_lock key : inside_txn (db_try_transaction_lock key).
Proof.
  intros s [c Hc]. unfold db_try_transaction_lock.
  case_decide; simpl; rewrite Hc; simpl; rewrite ?Hc; eauto.
Qed.

Lemma inside_utcnow : inside_txn utcnow.
Proof. by intros s Hs. Qed.

Lemma inside_print c m : inside_txn (print c m).
Proof. apply inside_emit. Qed.

Lemma inside_transactional {A} (fn : M A) :
  inside_txn fn -> inside_txn (transactional fn).
Proof. intros Hfn s [c Hc]. unfold transactional. rewrite Hc. apply Hfn. eauto. Qed.

Hint Resolve inside_ret inside_raise inside_lift inside_emit inside_write_content
  inside_db_execute inside_db_insert inside_db_get_scalar
  inside_db_try_transaction_lock inside_utcnow inside_print : txn.

Ltac inside_step :=
  first [ solve [auto with txn]
        | apply inside_bind; [|intros ?]
        | apply inside_for_each; intros ?
        | apply inside_transactional ].

Lemma inside_execute_migration_scripts from to versions :
  inside_txn (execute_migration_scripts from to versions).
Proof.
  unfold execute_migration_scripts, execute_migration_scripts_body.
  repeat inside_step.
Qed.

Lemma inside_currentVersion : inside_txn currentVersion.
Proof. unfold currentVersion. repeat inside_step. Qed.

Lemma inside_migrate_body db_name : inside_txn (_migrate_body db_name).
Proof.
  unfold _migrate_body, create_database_migration_table_if_not_exist.
  apply inside_bind; [inside_step|]. intros locked.
  destruct locked; simpl; [|inside_step].
  inside_step; [inside_step|].
  inside_step; [apply inside_currentVersion|].
  inside_step; [inside_step|].
  case_decide; [inside_step|].
  inside_step; [inside_step|].
  inside_step; [inside_step|].
  inside_step; [apply inside_execute_migration_scripts|inside_step].
Qed.

(** What the executor does around [fn] when no transaction is active. *)
Lemma transactional_run {A} (fn : M A) (s : State) :
  st_txn s = None ->
  let ob := fn (begin_state s) in
  let o := transactional fn s in
  res o = res ob
  /\ events o = EvBegin :: events ob
                ++ [match res ob with Return _ => EvCommit | Raise _ => EvRollback end]
  /\ final o = match res ob with
               | Return _ => with_own_locks ∅ (with_txn None
                               (with_committed (content (final ob)) (final ob)))
               | Raise _ => with_own_locks ∅ (with_txn None (final ob))
               end.
Proof.
  intros Hs. unfold transactional. rewrite Hs. unfold bind, begin. simpl.
  fold (begin_state s). destruct (res (fn (begin_state s))); simpl; done.
Qed.

End Transactions.

Section Executor.
Context {H : Host}.

(** C9: a wrapped function commits its writes on normal return, is rolled
    back with the same failure re-raised otherwise, and, called while a
    transaction is active, runs inside that transaction with no begin or
    commit of its own, so that its failure rolls back the whole outer unit
    of work. *)
Theorem transactional_executor {A} (fn : M A) (s : State) :
  inside_txn fn ->
  let o := transactional fn s in
  (is_Some (st_txn s) -> o = fn s)
  /\ (st_txn s = None ->
      let ob := fn (begin_state s) in
      res o = res ob /\ st_txn (final o) = None /\
      match res ob with
      | Return _ =>
          st_committed (final o) = content (final ob)
          /\ events o = EvBegin :: events ob ++ [EvCommit]
      | Raise _ =>
          st_committed (final o) = st_committed s
          /\ events o = EvBegin :: events ob ++ [EvRollback]
      end)
  /\ (st_txn s = None ->
      forall (B : Type) (pre : M unit) (post : A -> M B) (e : exception),
        inside_txn pre ->
        res (pre (begin_state s)) = Return tt ->
        res (fn (final (pre (begin_state s)))) = Raise e ->
        let outer := transactional (pre ;;; let! a := transactional fn in post a) s in
        res outer = Raise e
        /\ st_committed (final outer) = st_committed s
        /\ st_txn (final outer) = None
        /\ events outer
           = EvBegin :: events (pre (begin_state s))
               ++ events (fn (final (pre (begin_state s)))) ++ [EvRollback]).
Proof.
  intros Hfn o. split; [|split].
  - intros [c Hc]. subst o. unfold transactional. by rewrite Hc.
  - intros Hs ob. destruct (transactional_run fn s Hs) as (Hres & Hev & Hfin).
    fold o ob in Hres, Hev, Hfin. split; [done|].
    assert (Hb : is_Some (st_txn (begin_state s))) by (simpl; eauto).
    destruct (Hfn _ Hb) as [_ Hcomm]. fold ob in Hcomm.
    rewrite Hfin, Hev. destruct (res ob); simpl; [done|].
    rewrite Hcomm. done.
  - intros Hs B pre post e Hpre Hp Hf outer.
    assert (Hb : is_Some (st_txn (begin_state s))) by (simpl; eauto).
    destruct (Hpre _ Hb) as [[c1 Hc1] Hcomm1].
    assert (Hb1 : is_Some (st_txn (final (pre (begin_state s))))) by eauto.
    destruct (Hfn _ Hb1) as [_ Hcomm2].
    destruct (transactional_run (pre ;;; let! a := transactional fn in post a) s Hs)
      as (Hres & Hev & Hfin).
    fold outer in Hres, Hev, Hfin.
    assert (Hbody : res ((pre ;;; let! a := transactional fn in post a) (begin_state s))
                    = Raise e
                    /\ events ((pre ;;; let! a := transactional fn in post a) (begin_state s))
                       = events (pre (begin_state s))
                           ++ events (fn (final (pre (begin_state s))))
                    /\ final ((pre ;;; let! a := transactional fn in post a) (begin_state s))
                       = final (fn (final (pre (begin_state s))))).
    { unfold bind at 1 3 5. rewrite Hp. simpl.
      unfold bind, transactional. rewrite Hc1, Hf. simpl. done. }
    destruct Hbody as (Hr & He & Hf').
    rewrite Hr in Hres, Hev, Hfin. rewrite Hres, Hev, Hfin, He, Hf'. simpl.
    rewrite Hcomm2, Hcomm1. simpl. by rewrite <- app_assoc.
Qed.

End Executor.

(** ** The orchestrator *)

Section Orchestrator.
Context {H : Host}.

Lemma currentVersion_reads_content (s s' : State) :
  content s = content s' -> res (currentVersion s) = res (currentVersion s').
Proof.
  intros Hc. unfold currentVersion, db_get_scalar, bind, emit, ret, raise. simpl.
  rewrite Hc. by destruct (tables (content s') !! "database_migration").
Qed.

(** C1: a run of [_migrate] that raises leaves the committed content as it
    was, so the ledger has no new row and the current version is unchanged;
    the transaction is over, its lock released, and the failure is the one
    raised inside, handed on to the caller. *)
Theorem migrate_failure_rolls_back (db_name : string) (s : State) (e : exception) :
  st_txn s = None ->
  res (_migrate db_name s) = Raise e ->
  let o := _migrate db_name s in
  st_committed (final o) = st_committed s
  /\ ledger_rows (st_committed (final o)) = ledger_rows (st_committed s)
  /\ res (currentVersion (final o)) = res (currentVersion s)
  /\ st_txn (final o) = None
  /\ st_own_locks (final o) = ∅
  /\ last (events o) = Some EvRollback
  /\ res (_migrate_body db_name (begin_state s)) = Raise e
  /\ (st_exists s = true -> res (_migrate_database db_name s) = Raise e).
Proof.
  intros Hs Hraise o.
  destruct (transactional_run (_migrate_body db_name) s Hs) as (Hres & Hev & Hfin).
  fold (_migrate db_name) in Hres, Hev, Hfin. fold o in Hres, Hev, Hfin.
  assert (Hb : is_Some (st_txn (begin_state s))) by (simpl; eauto).
  destruct (inside_migrate_body db_name _ Hb) as [_ Hcomm].
  assert (Hbody : res (_migrate_body db_name (begin_state s)) = Raise e)
    by (rewrite <- Hres; exact Hraise).
  rewrite Hbody in Hev, Hfin.
  assert (Hc : st_committed (final o) = st_committed s)
    by (rewrite Hfin; simpl; by rewrite Hcomm).
  assert (Ht : st_txn (final o) = None) by (by rewrite Hfin).
  split; [done|]. split; [by rewrite Hc|]. split.
  { apply currentVersion_reads_content. unfold content. by rewrite Ht, Hs, Hc. }
  split; [done|]. split; [by rewrite Hfin|]. split.
  { rewrite Hev, app_comm_cons. apply last_snoc. }
  split; [done|].
  intros Hex. unfold _migrate_database, connect, bind, finally, emit. rewrite Hex. simpl.
  exact Hraise.
Qed.

Lemma migrate_body_no_lock (db_name : string) (s : State) :
  MIGRATION_LOCK_KEY process ∈ st_foreign_locks s ->
  _migrate_body db_name s
  = {| res := Return tt; final := s;
       events := [ EvTryLock (MIGRATION_LOCK_KEY process) false;
                   EvPrint (Some yellow) (DidNotMigrateParallel db_name) ] |}.
Proof.
  intros Hheld. unfold _migrate_body. unfold bind at 1.
  unfold db_try_transaction_lock. rewrite decide_True by done.
  cbn [res final events negb]. unfold print, emit. reflexivity.
Qed.

(** C4: when another session holds the lock, the run returns normally; it
    issues no statement and no insert, and the content is what it was. *)
Theorem migrate_without_lock (db_name : string) (s : State) :
  MIGRATION_LOCK_KEY process ∈ st_foreign_locks s ->
  let o := _migrate db_name s in
  res o = Return tt
  /\ st_committed (final o) = st_committed s
  /\ content (final o) = content s
  /\ forallb (fun e => negb (is_write e)) (events o) = true
  /\ (st_txn s = None ->
      events o = [ EvBegin;
                   EvTryLock (MIGRATION_LOCK_KEY process) false;
                   EvPrint (Some yellow) (DidNotMigrateParallel db_name);
                   EvCommit ]).
Proof.
  intros Hheld o. subst o. unfold _migrate, transactional.
  destruct (st_txn s) eqn:Hs.
  - rewrite (migrate_body_no_lock db_name s Hheld). cbn [res final events].
    repeat split; done.
  - unfold bind, begin. cbn [res final events].
    rewrite (migrate_body_no_lock db_name (with_txn (Some (st_committed s)) s) Hheld).
    cbn [res final events]. unfold commit. cbn [res final events].
    split; [done|]. split; [done|]. split; [|done].
    unfold content. simpl. by rewrite Hs.
Qed.

End Orchestrator.

(** ** Python built-ins and the loader *)

Lemma foldl_max_spec (l : list Z) (x : Z) :
  (foldl Z.max x l = x \/ foldl Z.max x l ∈ l)
  /\ x <= foldl Z.max x l
  /\ forall y, y ∈ l -> y <= foldl Z.max x l.
Proof.
  revert x. induction l as [|z l IH]; intros x; simpl.
  - split; [by left|]. split; [lia|]. intros y Hy. by apply elem_of_nil in Hy.
  - destruct (IH (Z.max x z)) as (Hin & Hle & Hall). split; [|split].
    + destruct Hin as [->|Hin]; [|right; by right].
      destruct (Z.max_spec x z) as [[_ ->]|[_ ->]]; [right; by left|by left].
    + lia.
    + intros y [->|Hy]%elem_of_cons; [lia|by apply Hall].
Qed.

Lemma py_max_spec (l : list Z) (v : Z) :
  py_max l = Return v -> v ∈ l /\ forall x, x ∈ l -> x <= v.
Proof.
  destruct l as [|x l]; simpl; [done|]. intros [= <-].
  destruct (foldl_max_spec l x) as (Hin & Hle & Hall). split.
  - destruct Hin as [->|Hin]; [by left|by right].
  - intros y [->|Hy]%elem_of_cons; [done|by apply Hall].
Qed.

Lemma elem_of_keys (m : gmap Z Path) (k : Z) :
  k ∈ (map_to_list m).*1 <-> is_Some (m !! k).
Proof.
  rewrite list_elem_of_fmap. split.
  - intros ([k' p] & -> & Hin). apply elem_of_map_to_list in Hin. eauto.
  - intros [p Hp]. exists (k, p). split; [done|]. by apply elem_of_map_to_list.
Qed.

Lemma py_max_keys (m : gmap Z Path) :
  m <> ∅ ->
  exists v, py_max (map_to_list m).*1 = Return v /\ is_max_version v m.
Proof.
  intros Hne. destruct (py_max (map_to_list m).*1) as [v|e] eqn:Hmax.
  - exists v. split; [done|]. apply py_max_spec in Hmax as [Hin Hall]. split.
    + by apply elem_of_keys.
    + intros k Hk. apply Hall. by apply elem_of_keys.
  - destruct (map_to_list m) as [|[k p] l] eqn:Hl; [|done].
    by apply map_to_list_empty_iff in Hl.
Qed.

Lemma is_max_version_unique (m : gmap Z Path) (v w : Z) :
  is_max_version v m -> is_max_version w m -> v = w.
Proof.
  intros [Hv Hvmax] [Hw Hwmax]. specialize (Hvmax w Hw). specialize (Hwmax v Hv). lia.
Qed.

Lemma apply_scripts_app {H : Host} versions l1 l2 a :
  apply_scripts versions (l1 ++ l2) a
  = result_bind (apply_scripts versions l1 a) (apply_scripts versions l2).
Proof.
  revert a. induction l1 as [|v l1 IH]; intros a; simpl; [done|].
  destruct (dict_getitem versions v) as [path|]; simpl; [|done].
  destruct (read_text path) as [text|]; simpl; [|done].
  destruct (engine text a); simpl; [|done]. apply IH.
Qed.

Lemma py_range_split (lo g hi : Z) :
  lo <= g < hi ->
  py_range lo hi = py_range lo g ++ g :: py_range (g + 1) hi.
Proof.
  intros Hg. unfold py_range.
  replace (hi - lo) with ((g - lo) + (hi - g)) by lia.
  rewrite seqZ_app by lia. f_equal.
  replace (lo + (g - lo)) with g by lia.
  rewrite seqZ_cons by lia. f_equal. f_equal; lia.
Qed.

Section Loader.
Context {H : Host}.

Lemma load_versions_inv (after : Z) (pending : gmap Z Path) :
  load_versions after = Return pending ->
  exists all, scan_scripts scripts_directory = Return all
              /\ forall k p, pending !! k = Some p <-> all !! k = Some p /\ after < k.
Proof.
  unfold load_versions. destruct (scan_scripts scripts_directory) as [all|e]; simpl; [|done].
  intros [= <-]. exists all. split; [done|]. intros k p.
  by rewrite map_lookup_filter_Some.
Qed.

(** Once the target of a run is the current version, nothing is pending. *)
Lemma load_versions_at_max (cur to : Z) (pending : gmap Z Path) :
  load_versions cur = Return pending ->
  is_max_version to pending ->
  load_versions to = Return ∅.
Proof.
  intros Hload [[p Hto] Hmax].
  destruct (load_versions_inv _ _ Hload) as (all & Hscan & Hlook).
  unfold load_versions. rewrite Hscan. simpl. f_equal.
  apply map_empty. intros k. apply map_lookup_filter_None. right.
  intros q Hq. simpl. intros Hlt.
  apply Hlook in Hto as [_ Hcur].
  assert (is_Some (pending !! k)) as Hk by (exists q; apply Hlook; split; [done|lia]).
  specialize (Hmax k Hk). lia.
Qed.

End Loader.

(** ** Runs of the orchestrator, step by step *)

Section Runs.
Context {H : Host}.

Lemma exec_ledger_ddl (c : Content) :
  exec_statement ledger_ddl c = Return (ensure_ledger c).
Proof.
  unfold exec_statement, ledger_ddl, ensure_ledger.
  by destruct (tables c !! MIGRATION_TABLE).
Qed.

Lemma ensure_ledger_lookup (c : Content) :
  exists t, tables (ensure_ledger c) !! "database_migration" = Some t
            /\ tbl_rows t = ledger_rows c
            /\ (identity_ahead_in c -> identity_ahead t).
Proof.
  unfold ensure_ledger, ledger_rows, MIGRATION_TABLE.
  destruct (tables c !! "database_migration") as [t|] eqn:Ht.
  - exists t. rewrite Ht. split; [done|]. split; [done|]. intros Hc. by apply Hc.
  - eexists. simpl. rewrite lookup_insert_eq. split; [done|]. split; [done|].
    intros _. constructor.
Qed.

Lemma ensure_ledger_present (c : Content) (t : Table) :
  tables c !! "database_migration" = Some t -> ensure_ledger c = c.
Proof. intros Ht. unfold ensure_ledger, MIGRATION_TABLE. by rewrite Ht. Qed.

Lemma ensure_ledger_rows (c : Content) : ledger_rows (ensure_ledger c) = ledger_rows c.
Proof.
  destruct (ensure_ledger_lookup c) as (t & Ht & Hrows & _).
  unfold ledger_rows at 1. by rewrite Ht.
Qed.

Lemma ensure_ledger_version (c : Content) :
  current_version_of (ensure_ledger c) = current_version_of c.
Proof. unfold current_version_of. by rewrite ensure_ledger_rows. Qed.

Lemma ensure_ledger_app (c : Content) : app_data (ensure_ledger c) = app_data c.
Proof. unfold ensure_ledger. by destruct (tables c !! MIGRATION_TABLE). Qed.

Lemma ensure_ledger_identity (c : Content) :
  identity_ahead_in c -> identity_ahead_in (ensure_ledger c).
Proof.
  intros Hc t Ht. destruct (ensure_ledger_lookup c) as (t' & Ht' & _ & Hid).
  rewrite Ht in Ht'. injection Ht' as ->. by apply Hid.
Qed.

(** A row accepted by the ledger becomes its latest row. *)
Lemma insert_into_ledger (from to at_ : Z) (c c' : Content) :
  insert_into "database_migration" from to at_ c = Return c' ->
  identity_ahead_in c ->
  exists t,
    tables c !! "database_migration" = Some t
    /\ ledger_rows c' = ledger_rows c
         ++ [{| id := tbl_identity t; from_version := from;
                to_version := to; migrated_at := at_ |}]
    /\ current_version_of c' = to
    /\ identity_ahead_in c'
    /\ app_data c' = app_data c
    /\ is_Some (tables c' !! "database_migration").
Proof.
  unfold insert_into. intros Hins Hid.
  destruct (tables c !! "database_migration") as [t|] eqn:Ht; [|done].
  destruct (insert_row t from to at_) as [t'|] eqn:Hrow; [|done].
  simpl in Hins. injection Hins as <-.
  apply insert_row_inv in Hrow as [_ ->]. exists t. split; [done|].
  specialize (Hid t Ht).
  assert (Hrows : ledger_rows
            {| tables := <["database_migration" :=
                 {| tbl_constraints := tbl_constraints t;
                    tbl_rows := tbl_rows t
                      ++ [{| id := tbl_identity t; from_version := from;
                             to_version := to; migrated_at := at_ |}];
                    tbl_identity := tbl_identity t + 1 |}]> (tables c);
               app_data := app_data c |}
          = ledger_rows c
              ++ [{| id := tbl_identity t; from_version := from;
                     to_version := to; migrated_at := at_ |}]).
  { unfold ledger_rows. simpl. by rewrite lookup_insert_eq, Ht. }
  split; [done|]. split; [|split; [|split; [done|simpl; rewrite lookup_insert_eq; eauto]]].
  - unfold current_version_of. rewrite Hrows.
    unfold ledger_rows. rewrite Ht. rewrite head_order_by_desc_snoc by done.
    simpl. by case_decide.
  - intros t'. simpl. rewrite lookup_insert_eq. intros [= <-].
    unfold identity_ahead in *. simpl. apply Forall_app. split.
    + eapply Forall_impl; [exact Hid|]. simpl. intros r Hr. lia.
    + constructor; [simpl; lia|constructor].
Qed.

(** One iteration of the loop. *)
Lemma script_step_run (versions : gmap Z Path) (v : Z) (s : State) (c : Content) :
  st_txn s = Some c ->
  (print None (ApplyingVersion v) ;;;
   let! path := lift (dict_getitem versions v) in
   let! text := lift (read_text path) in
   db_execute (SCRIPT text)) s
  = match result_bind (dict_getitem versions v) read_text with
    | Return text =>
        match engine text (app_data c) with
        | Return a =>
            {| res := Return tt;
               final := with_txn (Some {| tables := tables c; app_data := a |}) s;
               events := [EvPrint None (ApplyingVersion v); EvExecute (SCRIPT text)] |}
        | Raise e =>
            {| res := Raise e; final := s;
               events := [EvPrint None (ApplyingVersion v); EvExecute (SCRIPT text)] |}
        end
    | Raise e =>
        {| res := Raise e; final := s; events := [EvPrint None (ApplyingVersion v)] |}
    end.
Proof.
  intros Hs. unfold bind, print, emit, lift, db_execute, write_content, exec_statement.
  simpl. destruct (dict_getitem versions v) as [path|e]; simpl; [|done].
  destruct (read_text path) as [text|e]; simpl; [|done].
  unfold content. rewrite Hs. simpl.
  destruct (engine text (app_data c)) as [a|e]; simpl; [|done].
  unfold set_content. by rewrite Hs.
Qed.

Lemma bind_run {A B} (m : M A) (f : A -> M B) (s : State) :
  bind m f s
  = match res (m s) with
    | Return a =>
        {| res := res (f a (final (m s)));
           final := final (f a (final (m s)));
           events := events (m s) ++ events (f a (final (m s))) |}
    | Raise e => {| res := Raise e; final := final (m s); events := events (m s) |}
    end.
Proof. reflexivity. Qed.

(** The loop of [execute_migration_scripts] inside a transaction. *)
Lemma scripts_loop_run (versions : gmap Z Path) (l : list Z) (s : State) (c : Content) :
  st_txn s = Some c ->
  let o := for_each l (fun version =>
             print None (ApplyingVersion version) ;;;
             let! path := lift (dict_getitem versions version) in
             let! text := lift (read_text path) in
             db_execute (SCRIPT text)) s in
  match apply_scripts versions l (app_data c) with
  | Return a =>
      res o = Return tt
      /\ final o = with_txn (Some {| tables := tables c; app_data := a |}) s
      /\ events o = script_events versions l
  | Raise e => res o = Raise e
  end.
Proof.
  revert s c. induction l as [|v l IH]; intros s c Hs.
  - destruct s, c. simpl in Hs. subst. done.
  - cbn [for_each apply_scripts script_events]. cbn zeta.
    rewrite bind_run, (script_step_run versions v s c Hs).
    destruct (dict_getitem versions v) as [path|e]; cbn [result_bind res]; [|done].
    destruct (read_text path) as [text|e]; cbn [result_bind res]; [|done].
    destruct (engine text (app_data c)) as [a'|e]; cbn [result_bind res final events]; [|done].
    specialize (IH (with_txn (Some {| tables := tables c; app_data := a' |}) s)
                   {| tables := tables c; app_data := a' |} eq_refl).
    cbn zeta in IH. cbn [app_data] in IH.
    destruct (apply_scripts versions l a') as [a|e]; [|done].
    destruct IH as (-> & -> & ->). done.
Qed.

Lemma utcnow_run (s : State) :
  utcnow s = {| res := Return (st_clock s); final := s; events := [] |}.
Proof. reflexivity. Qed.

Lemma lift_run {A} (r : result A) (s : State) :
  lift r s = {| res := r; final := s; events := [] |}.
Proof. reflexivity. Qed.

Lemma print_run (c : option Color) (m : Message) (s : State) :
  print c m s = {| res := Return tt; final := s; events := [EvPrint c m] |}.
Proof. reflexivity. Qed.

Lemma db_execute_run (stmt : Statement) (s : State) (c : Content) :
  st_txn s = Some c ->
  db_execute stmt s
  = match exec_statement stmt c with
    | Return c' => {| res := Return tt; final := with_txn (Some c') s;
                      events := [EvExecute stmt] |}
    | Raise e => {| res := Raise e; final := s; events := [EvExecute stmt] |}
    end.
Proof.
  intros Hs. unfold db_execute, bind, emit, write_content. simpl.
  unfold content. rewrite Hs. simpl.
  destruct (exec_statement stmt c); simpl; [|done].
  unfold set_content. by rewrite Hs.
Qed.

Lemma db_insert_run (table : string) (from to at_ : Z) (s : State) (c : Content) :
  st_txn s = Some c ->
  db_insert table from to at_ s
  = match insert_into table from to at_ c with
    | Return c' => {| res := Return tt; final := with_txn (Some c') s;
                      events := [EvInsert table from to at_] |}
    | Raise e => {| res := Raise e; final := s;
                    events := [EvInsert table from to at_] |}
    end.
Proof.
  intros Hs. unfold db_insert, bind, emit, write_content. simpl.
  unfold content. rewrite Hs. simpl.
  destruct (insert_into table from to at_ c); simpl; [|done].
  unfold set_content. by rewrite Hs.
Qed.

Lemma try_lock_free_run (key : Z) (s : State) (c : Content) :
  st_txn s = Some c ->
  key ∉ st_foreign_locks s ->
  db_try_transaction_lock key s
  = {| res := Return true;
       final := with_own_locks ({[key]} ∪ st_own_locks s) s;
       events := [EvTryLock key true] |}.
Proof.
  intros Hs Hfree. unfold db_try_transaction_lock.
  rewrite decide_False by done. by rewrite Hs.
Qed.

Lemma execute_scripts_body_run (from to : Z) (versions : gmap Z Path)
    (s : State) (c : Content) :
  st_txn s = Some c ->
  let o := execute_migration_scripts_body from to versions s in
  match apply_scripts versions (py_range (from + 1) (to + 1)) (app_data c) with
  | Raise e => res o = Raise e
  | Return a =>
      events o = script_events versions (py_range (from + 1) (to + 1))
                 ++ [EvInsert "database_migration" from to (st_clock s)]
      /\ match insert_into "database_migration" from to (st_clock s)
                 {| tables := tables c; app_data := a |} with
         | Return c' => res o = Return tt /\ final o = with_txn (Some c') s
         | Raise e => res o = Raise e
         end
  end.
Proof.
  intros Hs o. subst o. unfold execute_migration_scripts_body.
  pose proof (scripts_loop_run versions (py_range (from + 1) (to + 1)) s c Hs) as Hloop.
  cbn zeta in Hloop. rewrite bind_run.
  destruct (apply_scripts versions (py_range (from + 1) (to + 1)) (app_data c)) as [a|e].
  - destruct Hloop as (-> & -> & ->). cbn [res final events].
    rewrite bind_run, utcnow_run. cbn [res final events].
    rewrite (db_insert_run _ _ _ _
               (with_txn (Some {| tables := tables c; app_data := a |}) s)
               {| tables := tables c; app_data := a |} eq_refl).
    cbn [st_clock with_txn].
    destruct (insert_into _ _ _ _ _) as [c'|e]; cbn [res final events];
      rewrite ?app_nil_l; done.
  - by rewrite Hloop.
Qed.

(** A run of the body that obtains the lock. *)
Lemma migrate_body_run (db_name : string) (s : State) (c : Content) :
  st_txn s = Some c ->
  MIGRATION_LOCK_KEY process ∉ st_foreign_locks s ->
  let s1 := with_txn (Some (ensure_ledger c))
              (with_own_locks ({[MIGRATION_LOCK_KEY process]} ∪ st_own_locks s) s) in
  let cur := current_version_of c in
  let o := _migrate_body db_name s in
  match load_versions cur with
  | Raise e => res o = Raise e
  | Return pending =>
      if decide (pending = ∅) then
        res o = Return tt /\ final o = s1
        /\ events o = run_prefix
                      ++ [EvPrint (Some yellow) (DidNotMigrateNoScripts db_name cur)]
      else
        exists to,
          is_max_version to pending
          /\ let ob := execute_migration_scripts_body cur to pending s1 in
             res o = res ob /\ final o = final ob
             /\ events o
                = run_prefix
                  ++ EvPrint None (BeAboutToMigrate db_name cur to) :: events ob
                  ++ match res ob with
                     | Return _ => [EvPrint (Some green) (Migrated db_name cur to)]
                     | Raise _ => []
                     end
  end.
Proof.
  intros Hs Hfree s1 cur o. subst o. unfold _migrate_body, run_prefix.
  set (key := MIGRATION_LOCK_KEY process) in *.
  rewrite bind_run, (try_lock_free_run key s c Hs Hfree). cbn [res final events negb].
  unfold create_database_migration_table_if_not_exist.
  change (CREATE_TABLE_IF_NOT_EXISTS _ _) with ledger_ddl.
  rewrite bind_run,
    (db_execute_run ledger_ddl (with_own_locks ({[key]} ∪ st_own_locks s) s) c Hs),
    exec_ledger_ddl.
  cbn [res final events]. change (with_txn (Some (ensure_ledger c)) _) with s1.
  destruct (ensure_ledger_lookup c) as (t & Ht & _).
  rewrite bind_run, (currentVersion_run s1 t Ht).
  change (content s1) with (ensure_ledger c). rewrite ensure_ledger_version.
  fold cur. cbn [res final events].
  rewrite bind_run, lift_run. cbn [res final events].
  destruct (load_versions cur) as [pending|e]; [|done].
  case_decide as Hempty.
  - rewrite print_run. cbn [res final events]. done.
  - destruct (py_max_keys pending Hempty) as (to & Hmax & Hto).
    exists to. split; [done|]. cbn zeta.
    set (ob := execute_migration_scripts_body cur to pending s1).
    rewrite bind_run, lift_run, Hmax. cbn [res final events].
    rewrite bind_run, print_run. cbn [res final events].
    rewrite bind_run. unfold execute_migration_scripts, transactional.
    change (st_txn s1) with (Some (ensure_ledger c)). cbn iota.
    fold ob. destruct (res ob) as [[]|e]; cbn [res final events].
    + rewrite print_run. cbn [res final events]. done.
    + rewrite app_nil_r. done.
Qed.

Lemma migrate_no_lock_run (db_name : string) (s : State) :
  st_txn s = None ->
  MIGRATION_LOCK_KEY process ∈ st_foreign_locks s ->
  res (_migrate db_name s) = Return tt
  /\ events (_migrate db_name s)
     = [ EvBegin;
         EvTryLock (MIGRATION_LOCK_KEY process) false;
         EvPrint (Some yellow) (DidNotMigrateParallel db_name);
         EvCommit ]
  /\ st_committed (final (_migrate db_name s)) = st_committed s.
Proof.
  intros Hs Hheld.
  destruct (transactional_run (_migrate_body db_name) s Hs) as (Hres & Hev & Hfin).
  fold (_migrate db_name) in Hres, Hev, Hfin.
  rewrite (migrate_body_no_lock db_name (begin_state s) Hheld) in Hres, Hev, Hfin.
  rewrite Hres, Hev, Hfin. done.
Qed.

Ltac absurd_event Hin :=
  exfalso; revert Hin; unfold run_prefix;
  repeat (rewrite elem_of_cons || rewrite elem_of_app || rewrite elem_of_nil);
  intros Hin; decompose [or] Hin; discriminate || done.

(** A run that reached the end: what it found, what it did, what it left. *)
Lemma migrate_done (db_name : string) (s : State) :
  st_txn s = None ->
  successful (_migrate db_name s) ->
  let o := _migrate db_name s in
  let cur := current_version_of (st_committed s) in
  exists pending to a c',
    load_versions cur = Return pending
    /\ is_max_version to pending
    /\ apply_scripts pending (py_range (cur + 1) (to + 1)) (app_data (st_committed s))
       = Return a
    /\ insert_into "database_migration" cur to (st_clock s)
         {| tables := tables (ensure_ledger (st_committed s)); app_data := a |}
       = Return c'
    /\ st_committed (final o) = c'
    /\ st_txn (final o) = None
    /\ events o
       = EvBegin :: run_prefix
         ++ EvPrint None (BeAboutToMigrate db_name cur to)
         :: script_events pending (py_range (cur + 1) (to + 1))
         ++ [ EvInsert "database_migration" cur to (st_clock s);
              EvPrint (Some green) (Migrated db_name cur to);
              EvCommit ].
Proof.
  intros Hs [Hret (d & f & t & Hin)] o cur.
  destruct (decide (MIGRATION_LOCK_KEY process ∈ st_foreign_locks s)) as [Hheld|Hfree].
  { destruct (migrate_no_lock_run db_name s Hs Hheld) as (_ & Hev & _).
    rewrite Hev in Hin. absurd_event Hin. }
  destruct (transactional_run (_migrate_body db_name) s Hs) as (Hres & Hev & Hfin).
  fold (_migrate db_name) in Hres, Hev, Hfin.
  pose proof (migrate_body_run db_name (begin_state s) (st_committed s) eq_refl Hfree)
    as Hbody.
  cbn zeta in Hbody. fold cur in Hbody.
  rewrite Hret in Hres.
  destruct (load_versions cur) as [pending|e]; [|congruence].
  case_decide as Hempty.
  { destruct Hbody as (Hr & _ & Hevb). rewrite Hevb, Hr in Hev.
    rewrite Hev in Hin. absurd_event Hin. }
  destruct Hbody as (to & Hmax & Hrb & Hfb & Hevb).
  set (s1 := with_txn (Some (ensure_ledger (st_committed s)))
               (with_own_locks ({[MIGRATION_LOCK_KEY process]}
                                ∪ st_own_locks (begin_state s)) (begin_state s))) in *.
  pose proof (execute_scripts_body_run cur to pending s1
                (ensure_ledger (st_committed s)) eq_refl) as Hexec.
  cbn zeta in Hexec. rewrite ensure_ledger_app in Hexec.
  rewrite <- Hres in Hrb. rewrite <- Hrb in Hevb. rewrite <- Hres in Hev, Hfin.
  change (st_clock s1) with (st_clock s) in Hexec.
  destruct (apply_scripts pending (py_range (cur + 1) (to + 1))
              (app_data (st_committed s))) as [a|e] eqn:Happly; [|congruence].
  destruct Hexec as [Hevx Hins].
  destruct (insert_into _ _ _ _ _) as [c'|e] eqn:Hinsert; [|congruence].
  destruct Hins as [_ Hfx].
  exists pending, to, a, c'. split; [done|]. split; [done|]. split; [exact Happly|].
  split; [exact Hinsert|].
  fold o in Hev, Hfin. rewrite Hfin, Hfb, Hfx. split; [done|]. split; [done|].
  rewrite Hev, Hevb, Hevx. simpl. f_equal. f_equal. f_equal. f_equal. f_equal.
  by rewrite <- !app_assoc.
Qed.



Lemma migrate_rollback (db_name : string) (s : State) (e : exception) :
  st_txn s = None ->
  res (_migrate db_name s) = Raise e ->
  st_committed (final (_migrate db_name s)) = st_committed s
  /\ st_txn (final (_migrate db_name s)) = None.
Proof.
  intros Hs Hraise.
  destruct (transactional_run (_migrate_body db_name) s Hs) as (Hres & _ & Hfin).
  fold (_migrate db_name) in Hres, Hfin.
  assert (Hb : is_Some (st_txn (begin_state s))) by (simpl; eauto).
  destruct (inside_migrate_body db_name _ Hb) as [_ Hcomm].
  rewrite Hraise in Hres. rewrite <- Hres in Hfin. rewrite Hfin. simpl.
  by rewrite Hcomm.
Qed.

Lemma load_versions_lookup (after : Z) (pending : gmap Z Path) :
  load_versions after = Return pending ->
  exists all, scan_scripts scripts_directory = Return all
              /\ forall k, pending !! k = if decide (after < k) then all !! k else None.
Proof.
  intros Hload. destruct (load_versions_inv _ _ Hload) as (all & Hscan & Hlook).
  exists all. split; [done|]. intros k. apply option_eq. intros p.
  rewrite Hlook. case_decide; split;
    [by intros [? ?]|by intros ?|intros [? ?]; lia|done].
Qed.

End Runs.

Section Claims.
Context {H : Host}.

(** C3 (as the code has it): when the lock is obtained and a version [g] of
    the range [(current, target]] has no script, the run fails and the
    committed content, the ledger with it, is unchanged.  The scripts below
    [g] are executed first: if one of them fails the run fails with that
    failure, otherwise with the [KeyError] of the lookup [versions[g]]. *)
Theorem migrate_gap_fails (db_name : string) (s : State)
    (pending : gmap Z Path) (to g : Z) :
  st_txn s = None ->
  MIGRATION_LOCK_KEY process ∉ st_foreign_locks s ->
  load_versions (current_version_of (st_committed s)) = Return pending ->
  is_max_version to pending ->
  current_version_of (st_committed s) < g <= to ->
  pending !! g = None ->
  let o := _migrate db_name s in
  (exists e, res o = Raise e)
  /\ st_committed (final o) = st_committed s
  /\ ledger_rows (st_committed (final o)) = ledger_rows (st_committed s)
  /\ match apply_scripts pending
             (py_range (current_version_of (st_committed s) + 1) g)
             (app_data (st_committed s)) with
     | Return _ => res o = Raise (KeyError g)
     | Raise e => res o = Raise e
     end.
Proof.
  intros Hs Hfree Hload Hmax Hg Hnone o.
  set (cur := current_version_of (st_committed s)) in *.
  assert (Hres : match apply_scripts pending (py_range (cur + 1) g)
                         (app_data (st_committed s)) with
                 | Return _ => res o = Raise (KeyError g)
                 | Raise e => res o = Raise e
                 end).
  { destruct (transactional_run (_migrate_body db_name) s Hs) as (Hres & _ & _).
    fold (_migrate db_name) in Hres. fold o in Hres.
    pose proof (migrate_body_run db_name (begin_state s) (st_committed s) eq_refl Hfree)
      as Hbody.
    cbn zeta in Hbody. fold cur in Hbody. rewrite Hload in Hbody.
    case_decide as Hempty.
    { destruct Hmax as [[p Hp] _]. subst pending. by rewrite lookup_empty in Hp. }
    destruct Hbody as (to' & Hmax' & Hrb & _).
    rewrite (is_max_version_unique _ _ _ Hmax' Hmax) in Hrb. clear to' Hmax'.
    rewrite Hres, Hrb.
    match goal with
    | |- context [execute_migration_scripts_body cur to pending ?s1] =>
        pose proof (execute_scripts_body_run cur to pending s1
                      (ensure_ledger (st_committed s)) eq_refl) as Hexec
    end.
    cbn zeta in Hexec. rewrite ensure_ledger_app in Hexec.
    rewrite (py_range_split (cur + 1) g (to + 1)) in Hexec by lia.
    rewrite apply_scripts_app in Hexec.
    destruct (apply_scripts pending (py_range (cur + 1) g) (app_data (st_committed s)))
      as [a|e]; cbn [result_bind] in Hexec; [|done].
    cbn [apply_scripts] in Hexec. unfold dict_getitem in Hexec.
    rewrite Hnone in Hexec. exact Hexec. }
  assert (Hraise : exists e, res o = Raise e).
  { destruct (apply_scripts _ _ _); eauto. }
  destruct Hraise as [e He].
  destruct (migrate_rollback db_name s e Hs He) as [Hc _].
  split; [eauto|]. split; [done|]. split; [by fold o in Hc; rewrite Hc|done].
Qed.



(** C2: a run that reached the end found the scripts above the current
    version pending, executed the whole range in ascending order, appended
    one ledger row from the current version to the largest pending version,
    and the current version now is that largest version.  With scripts for
    exactly the versions 1, 2 and 3 and an empty ledger: scripts 1, 2, 3 in
    this order, one row (0, 3), current version 3. *)
Theorem migrate_applies_pending (db_name : string) (s : State) :
  st_txn s = None ->
  identity_ahead_in (st_committed s) ->
  successful (_migrate db_name s) ->
  let o := _migrate db_name s in
  let cur := current_version_of (st_committed s) in
  exists pending to new_id,
    load_versions cur = Return pending
    /\ is_max_version to pending
    /\ res (currentVersion (final o)) = Return to
    /\ ledger_rows (st_committed (final o))
       = ledger_rows (st_committed s)
           ++ [{| id := new_id; from_version := cur; to_version := to;
                  migrated_at := st_clock s |}]
    /\ events o
       = EvBegin :: run_prefix
         ++ EvPrint None (BeAboutToMigrate db_name cur to)
         :: script_events pending (py_range (cur + 1) (to + 1))
         ++ [ EvInsert "database_migration" cur to (st_clock s);
              EvPrint (Some green) (Migrated db_name cur to);
              EvCommit ]
    /\ apply_scripts pending (py_range (cur + 1) (to + 1)) (app_data (st_committed s))
       = Return (app_data (st_committed (final o)))
    /\ identity_ahead_in (st_committed (final o))
    /\ (forall all,
          scan_scripts scripts_directory = Return all ->
          dom all = {[1; 2; 3]} ->
          ledger_rows (st_committed s) = [] ->
          cur = 0 /\ to = 3
          /\ exists t1 t2 t3,
               result_bind (dict_getitem all 1) read_text = Return t1
               /\ result_bind (dict_getitem all 2) read_text = Return t2
               /\ result_bind (dict_getitem all 3) read_text = Return t3
               /\ events o
                  = EvBegin :: run_prefix
                    ++ [ EvPrint None (BeAboutToMigrate db_name 0 3);
                         EvPrint None (ApplyingVersion 1); EvExecute (SCRIPT t1);
                         EvPrint None (ApplyingVersion 2); EvExecute (SCRIPT t2);
                         EvPrint None (ApplyingVersion 3); EvExecute (SCRIPT t3);
                         EvInsert "database_migration" 0 3 (st_clock s);
                         EvPrint (Some green) (Migrated db_name 0 3);
                         EvCommit ]
               /\ ledger_rows (st_committed (final o))
                  = [{| id := new_id; from_version := 0; to_version := 3;
                        migrated_at := st_clock s |}]).
Proof.
  intros Hs Hid Hok o cur.
  destruct (migrate_done db_name s Hs Hok)
    as (pending & to & a & c' & Hload & Hmax & Happly & Hins & Hc & Htxn & Hev).
  fold o in Hc, Htxn, Hev. fold cur in Hload, Happly, Hins, Hev.
  destruct (insert_into_ledger cur to (st_clock s) _ c' Hins)
    as (t & Ht & Hrows & Hver & Hid' & Happ & [t' Ht']).
  { intros t0 Ht0. apply (ensure_ledger_identity _ Hid t0 Ht0). }
  simpl in Ht, Happ.
  assert (Hrows' : ledger_rows (st_committed (final o))
                   = ledger_rows (st_committed s)
                       ++ [{| id := tbl_identity t; from_version := cur;
                              to_version := to; migrated_at := st_clock s |}]).
  { rewrite Hc, Hrows. f_equal.
    change (ledger_rows (ensure_ledger (st_committed s)) = ledger_rows (st_committed s)).
    apply ensure_ledger_rows. }
  exists pending, to, (tbl_identity t).
  split; [done|]. split; [done|]. split.
  { rewrite (currentVersion_run (final o) t').
    - unfold content. rewrite Htxn. simpl. by rewrite Hc, Hver.
    - unfold content. rewrite Htxn. simpl. by rewrite Hc. }
  split; [done|]. split; [done|]. split; [by rewrite Hc, Happ|].
  split; [by rewrite Hc|].
  intros all Hscan Hdom Hempty.
  assert (Hcur : cur = 0).
  { subst cur. unfold current_version_of. by rewrite Hempty. }
  destruct (load_versions_lookup _ _ Hload) as (all' & Hscan' & Hlook).
  rewrite Hscan in Hscan'. injection Hscan' as <-. rewrite Hcur in Hlook.
  assert (Hdom' : forall k, is_Some (all !! k) <-> k = 1 \/ k = 2 \/ k = 3).
  { intros k. rewrite <- elem_of_dom, Hdom, !elem_of_union, !elem_of_singleton. tauto. }
  assert (Hto : to = 3).
  { apply (is_max_version_unique pending); [done|]. split.
    - rewrite Hlook. rewrite decide_True by lia. apply Hdom'. auto.
    - intros k. rewrite Hlook. case_decide; [|by intros [? ?]].
      intros Hk%Hdom'. lia. }
  split; [done|]. split; [done|].
  rewrite Hcur, Hto in Happly, Hev. rewrite Hrows', Hempty, Hcur, Hto.
  change (py_range (0 + 1) (3 + 1)) with [1; 2; 3] in Happly, Hev.
  cbn [apply_scripts script_events] in Happly, Hev.
  unfold dict_getitem in *.
  rewrite !Hlook in Happly, Hev. rewrite !decide_True in Happly, Hev by lia.
  destruct (all !! 1) as [p1|]; cbn [result_bind] in *; [|done].
  destruct (read_text p1) as [t1|]; cbn [result_bind] in *; [|done].
  destruct (engine t1 _) as [a1|]; cbn [result_bind] in *; [|done].
  destruct (all !! 2) as [p2|]; cbn [result_bind] in *; [|done].
  destruct (read_text p2) as [t2|]; cbn [result_bind] in *; [|done].
  destruct (engine t2 _) as [a2|]; cbn [result_bind] in *; [|done].
  destruct (all !! 3) as [p3|]; cbn [result_bind] in *; [|done].
  destruct (read_text p3) as [t3|]; cbn [result_bind] in *; [|done].
  exists t1, t2, t3. split; [done|]. split; [done|]. split; [done|].
  split; [exact Hev|done].
Qed.

(** C7: after a run that reached the end, a second run over the same
    scripts returns normally, applies no script and inserts no row, and
    leaves the committed content as it is; when it obtains the lock it finds
    nothing pending and reports so. *)
Theorem migrate_idempotent (db_name db_name' : string) (s s2 : State) :
  st_txn s = None ->
  identity_ahead_in (st_committed s) ->
  successful (_migrate db_name s) ->
  st_committed s2 = st_committed (final (_migrate db_name s)) ->
  st_txn s2 = None ->
  let o2 := _migrate db_name' s2 in
  res o2 = Return tt
  /\ st_committed (final o2) = st_committed s2
  /\ forallb (fun e => negb (applies_script e)) (events o2) = true
  /\ (MIGRATION_LOCK_KEY process ∉ st_foreign_locks s2 ->
      load_versions (current_version_of (st_committed s2)) = Return ∅
      /\ events o2
         = EvBegin :: run_prefix
           ++ [ EvPrint (Some yellow)
                  (DidNotMigrateNoScripts db_name' (current_version_of (st_committed s2)));
                EvCommit ]).
Proof.
  intros Hs Hid Hok Hs2c Hs2 o2.
  destruct (migrate_done db_name s Hs Hok)
    as (pending & to & a & c' & Hload & Hmax & _ & Hins & Hc & _ & _).
  destruct (insert_into_ledger _ to (st_clock s) _ c' Hins)
    as (_ & _ & _ & Hver & _ & _ & [t' Ht']).
  { intros t0 Ht0. apply (ensure_ledger_identity _ Hid t0 Ht0). }
  rewrite Hc in Hs2c.
  assert (Hnone : load_versions (current_version_of (st_committed s2)) = Return ∅).
  { rewrite Hs2c, Hver. by eapply load_versions_at_max. }
  destruct (decide (MIGRATION_LOCK_KEY process ∈ st_foreign_locks s2)) as [Hheld|Hfree].
  { destruct (migrate_no_lock_run db_name' s2 Hs2 Hheld) as (Hres & Hev & Hcomm).
    fold o2 in Hres, Hev, Hcomm. rewrite Hev.
    split; [done|]. split; [done|]. split; [done|]. by intros []. }
  destruct (transactional_run (_migrate_body db_name') s2 Hs2) as (Hres & Hev & Hfin).
  fold (_migrate db_name') in Hres, Hev, Hfin. fold o2 in Hres, Hev, Hfin.
  pose proof (migrate_body_run db_name' (begin_state s2) (st_committed s2) eq_refl Hfree)
    as Hbody.
  cbn zeta in Hbody. rewrite Hnone in Hbody. rewrite decide_True in Hbody by done.
  destruct Hbody as (Hrb & Hfb & Hevb).
  rewrite Hrb in Hres, Hev, Hfin. rewrite Hevb in Hev. rewrite Hfb in Hfin.
  split; [done|]. split.
  { rewrite Hfin. simpl. rewrite Hs2c. by eapply ensure_ledger_present. }
  split.
  { rewrite Hev. unfold run_prefix. generalize (MIGRATION_LOCK_KEY process).
    intros key. reflexivity. }
  intros _. split; [done|]. rewrite Hev. by rewrite <- app_assoc.
Qed.



(** ** The migrate command *)

Lemma only_ret {A} P (a : A) : only_events P (ret a).
Proof. by intros s. Qed.

Lemma only_raise {A} P (e : exception) : only_events P (@raise _ A e).
Proof. by intros s. Qed.

Lemma only_lift {A} P (r : result A) : only_events P (lift r).
Proof. by intros s. Qed.

Lemma only_emit P (e : Event) : P e = true -> only_events P (emit e).
Proof. intros He s. simpl. by rewrite He. Qed.

Lemma only_bind {A B} P (m : M A) (f : A -> M B) :
  only_events P m -> (forall a, only_events P (f a)) -> only_events P (bind m f).
Proof.
  intros Hm Hf s. rewrite bind_run. specialize (Hm s).
  destruct (res (m s)) as [a|e]; cbn [events]; [|done].
  rewrite forallb_app, Hm. apply Hf.
Qed.

Lemma only_for_each {A} P (l : list A) (body : A -> M unit) :
  (forall x, only_events P (body x)) -> only_events P (for_each l body).
Proof.
  intros Hb. induction l as [|x l IH]; simpl.
  - apply only_ret.
  - apply only_bind; [apply Hb|]. intros _. apply IH.
Qed.

Lemma only_finally {A} P (body : M A) (cleanup : M unit) :
  only_events P body -> only_events P cleanup -> only_events P (finally body cleanup).
Proof.
  intros Hb Hc s. unfold finally. cbn [events]. by rewrite forallb_app, Hb, Hc.
Qed.

Lemma only_write_content P f : only_events P (write_content f).
Proof. intros s. unfold write_content. by destruct (f (content s)). Qed.

Lemma only_db_execute P stmt :
  P (EvExecute stmt) = true -> only_events P (db_execute stmt).
Proof.
  intros He. apply only_bind; [by apply only_emit|]. intros _. apply only_write_content.
Qed.

Lemma only_db_insert P table from to at_ :
  P (EvInsert table from to at_) = true -> only_events P (db_insert table from to at_).
Proof.
  intros He. apply only_bind; [by apply only_emit|]. intros _. apply only_write_content.
Qed.

Lemma only_db_get_scalar P q :
  P (EvGetScalar q) = true -> only_events P (db_get_scalar q).
Proof.
  intros He. apply only_bind; [by apply only_emit|]. intros _ s.
  by destruct (tables (content s) !! q_from q).
Qed.

Lemma only_db_try_transaction_lock P key :
  (forall b, P (EvTryLock key b) = true) -> only_events P (db_try_transaction_lock key).
Proof.
  intros He s. unfold db_try_transaction_lock. case_decide; simpl; by rewrite He.
Qed.

Lemma only_transactional {A} P (fn : M A) :
  P EvBegin = true -> P EvCommit = true -> P EvRollback = true ->
  only_events P fn -> only_events P (transactional fn).
Proof.
  intros Hb Hc Hr Hfn s. unfold transactional.
  destruct (st_txn s) eqn:Hs; [apply Hfn|].
  rewrite bind_run. cbn [begin res final events].
  specialize (Hfn (with_txn (Some (st_committed s)) s)).
  destruct (res (fn _)); cbn [res final events commit rollback];
    rewrite forallb_app; cbn [forallb app]; rewrite Hb, Hfn; cbn [forallb andb];
    by rewrite ?Hc, ?Hr.
Qed.

Ltac no_guard_step :=
  first [ apply only_ret | apply only_raise | apply only_lift
        | apply only_emit; reflexivity
        | apply only_db_execute; reflexivity
        | apply only_db_insert; reflexivity
        | apply only_db_get_scalar; reflexivity
        | apply only_db_try_transaction_lock; intros ?; reflexivity
        | apply only_transactional; [reflexivity..|]
        | apply only_for_each; intros ?
        | apply only_finally
        | apply only_bind; [|intros ?] ].

Lemma no_guard_migrate (db_name : string) : only_events not_guard (_migrate db_name).
Proof.
  unfold _migrate, _migrate_body, create_database_migration_table_if_not_exist,
    currentVersion, execute_migration_scripts, execute_migration_scripts_body,
    print, utcnow.
  apply only_transactional; [reflexivity..|].
  apply only_bind; [no_guard_step|]. intros locked.
  destruct locked; cbn [negb]; [|no_guard_step].
  apply only_bind; [no_guard_step|]. intros _.
  apply only_bind; [repeat no_guard_step|]. intros current_version.
  apply only_bind; [no_guard_step|]. intros new_versions.
  case_decide; [no_guard_step|].
  apply only_bind; [no_guard_step|]. intros to_version.
  apply only_bind; [no_guard_step|]. intros _.
  apply only_bind; [|intros _; no_guard_step].
  apply only_transactional; [reflexivity..|].
  apply only_bind.
  - apply only_for_each. intros version. repeat no_guard_step.
  - intros _. apply only_bind; [by intros s|]. intros now. no_guard_step.
Qed.

Lemma no_guard_migrate_database (db_name : string) :
  only_events not_guard (_migrate_database db_name).
Proof.
  unfold _migrate_database. apply only_bind.
  - intros s. unfold connect. by destruct (st_exists s).
  - intros _. apply only_finally; [apply no_guard_migrate|no_guard_step].
Qed.

Lemma no_guard_create_database (c : Config) :
  only_events not_guard (create_database_if_not_exist c).
Proof.
  unfold create_database_if_not_exist, is_database_existed, run_createdb, print.
  apply only_bind.
  - apply only_bind; [no_guard_step|]. intros _. by intros s.
  - intros existed. destruct existed; [no_guard_step|].
    apply only_bind; [|intros _; no_guard_step].
    apply only_bind; [no_guard_step|]. intros _. by intros s.
Qed.

(** C10: in a dev or test environment [migrate] runs no guard at all;
    anywhere else the two guards come first, in their order, ahead of every
    shell command and of the connection, and a guard that raises ends the
    command before any of those. *)
Theorem migrate_guards_first (c : Config) (s : State) :
  let o := migrate_database c s in
  let rest := (create_database_if_not_exist c ;;; _migrate_database (db_database c)) s in
  forallb not_guard (events rest) = true
  /\ if is_dev ENV || is_test ENV
     then res o = res rest /\ final o = final rest /\ events o = events rest
     else match check_no_scripts_not_locked, check_no_locked_scripts_changed with
          | Raise e, _ =>
              res o = Raise e /\ final o = s
              /\ events o = [EvGuard guard_not_locked]
          | Return _, Raise e =>
              res o = Raise e /\ final o = s
              /\ events o = [EvGuard guard_not_locked; EvGuard guard_locked_changed]
          | Return _, Return _ =>
              res o = res rest /\ final o = final rest
              /\ events o = EvGuard guard_not_locked :: EvGuard guard_locked_changed
                              :: events rest
          end.
Proof.
  intros o rest. split.
  { subst rest. apply only_bind; [apply no_guard_create_database|].
    intros _. apply no_guard_migrate_database. }
  subst o. unfold migrate_database. fold rest.
  destruct (is_dev ENV || is_test ENV); cbn [negb].
  - rewrite bind_run. cbn [ret res final events]. done.
  - rewrite bind_run. rewrite (bind_run (emit _ ;;; lift _)).
    rewrite (bind_run (emit (EvGuard guard_not_locked))).
    cbn [emit res final events]. rewrite lift_run. cbn [res final events].
    destruct check_no_scripts_not_locked as [[]|e]; cbn [res final events]; [|done].
    rewrite bind_run. cbn [emit res final events]. rewrite lift_run.
    cbn [res final events].
    destruct check_no_locked_scripts_changed as [[]|e]; cbn [res final events]; done.
Qed.

End Claims.

(** * The properties at work on the concrete host *)

Lemma fresh_identity_ahead {H : Host} (foreign : gset Z) :
  identity_ahead_in (st_committed (fresh_state foreign)).
Proof. intros t Ht. simpl in Ht. by rewrite lookup_empty in Ht. Qed.

Lemma run_123_successful :
  successful (@_migrate host_123 "fas" (fresh_state ∅)).
Proof.
  split; [vm_compute; reflexivity|]. exists "fas", 0, 3.
  apply list_elem_of_In. vm_compute. tauto.
Qed.

(** A script that fails in the middle of the range: nothing is left of the
    run. *)
Lemma migrate_failure_rolls_back_witness :
  res (@_migrate host_123_failing "fas" (fresh_state ∅))
  = Raise (ScriptFailure "RAISE syntax error")
  /\ st_committed (final (@_migrate host_123_failing "fas" (fresh_state ∅)))
     = st_committed (@fresh_state host_123_failing ∅).
Proof.
  assert (Hraise : res (@_migrate host_123_failing "fas" (fresh_state ∅))
                   = Raise (ScriptFailure "RAISE syntax error"))
    by (vm_compute; reflexivity).
  split; [exact Hraise|].
  apply (@migrate_failure_rolls_back host_123_failing "fas" (fresh_state ∅)
           (ScriptFailure "RAISE syntax error") eq_refl Hraise).
Defined.

(** Scripts 1, 2, 3 on an empty ledger: the current version becomes 3. *)
Lemma migrate_applies_pending_witness :
  res (@currentVersion host_123 (final (@_migrate host_123 "fas" (fresh_state ∅))))
  = Return 3.
Proof.
  destruct (@migrate_applies_pending host_123 "fas" (fresh_state ∅) eq_refl
              (fresh_identity_ahead ∅) run_123_successful)
    as (pending & to & new_id & _ & _ & Hcur & _ & _ & _ & _ & Hscenario).
  destruct (Hscenario {[1 := "1.sql"; 2 := "2.sql"; 3 := "3.sql"]}) as (_ & Hto & _).
  - vm_compute. reflexivity.
  - vm_compute. reflexivity.
  - vm_compute. reflexivity.
  - rewrite Hto in Hcur. exact Hcur.
Defined.

Lemma pending_13 :
  @load_versions host_13 0 = Return {[1 := "1.sql"; 3 := "3.sql"]}.
Proof. vm_compute. reflexivity. Qed.

Lemma max_version_13 : is_max_version 3 ({[1 := "1.sql"; 3 := "3.sql"]} : gmap Z Path).
Proof.
  destruct (py_max_keys ({[1 := "1.sql"; 3 := "3.sql"]} : gmap Z Path))
    as (v & Hv & Hmax).
  - intros Hempty. apply (f_equal (fun m : gmap Z Path => m !! 1)) in Hempty.
    vm_compute in Hempty. discriminate.
  - vm_compute in Hv. injection Hv as <-. exact Hmax.
Qed.

(** Scripts 1 and 3 on an empty ledger: script 1 runs, the lookup of
    version 2 raises, nothing is committed. *)
Lemma migrate_gap_fails_witness :
  res (@_migrate host_13 "fas" (fresh_state ∅)) = Raise (KeyError 2)
  /\ ledger_rows (st_committed (final (@_migrate host_13 "fas" (fresh_state ∅)))) = [].
Proof.
  destruct (@migrate_gap_fails host_13 "fas" (fresh_state ∅)
              {[1 := "1.sql"; 3 := "3.sql"]} 3 2 eq_refl)
    as (_ & _ & Hrows & Hres).
  - apply not_elem_of_empty.
  - exact pending_13.
  - exact max_version_13.
  - vm_compute. split; [reflexivity|discriminate].
  - vm_compute. reflexivity.
  - split; [exact Hres|exact Hrows].
Defined.

(** With scripts 1 and 3 and the ledger at version 0, a first script that
    the engine rejects makes the run fail with the engine's failure: the
    missing version 2 is never looked up. *)
Lemma gap_run_fails_with_script_failure :
  (exists pending,
     @load_versions host_13_failing
       (current_version_of (st_committed (@fresh_state host_13_failing ∅)))
     = Return pending
     /\ is_Some (pending !! 1) /\ pending !! 2 = None /\ is_Some (pending !! 3))
  /\ res (@_migrate host_13_failing "fas" (fresh_state ∅))
     = Raise (ScriptFailure "RAISE division by zero")
  /\ forall version,
       res (@_migrate host_13_failing "fas" (fresh_state ∅))
       <> Raise (KeyError version).
Proof.
  split; [|split].
  - exists {[1 := "1.sql"; 3 := "3.sql"]}. split; [vm_compute; reflexivity|].
    split; [vm_compute; eauto|]. split; [vm_compute; reflexivity|vm_compute; eauto].
  - vm_compute. reflexivity.
  - intros version. vm_compute. discriminate.
Qed.

(** Another session holds the key: the run ends without a write. *)
Lemma migrate_without_lock_witness :
  res (@_migrate host_123 "fas"
         (fresh_state {[MIGRATION_LOCK_KEY (@process host_123)]}))
  = Return tt.
Proof.
  apply (@migrate_without_lock host_123 "fas"
           (fresh_state {[MIGRATION_LOCK_KEY (@process host_123)]})).
  simpl. apply elem_of_singleton. reflexivity.
Defined.

Lemma ledger_035_invariant : ledger_invariant (tbl_rows ledger_035).
Proof.
  split.
  - repeat constructor; simpl; lia.
  - intros i j r1 r2 Hi Hj Hij.
    destruct i as [|[|i]]; destruct j as [|[|j]]; simpl in Hi, Hj;
      try done; injection Hi as <-; injection Hj as <-;
      intros (x & Hx1 & Hx2); simpl in Hx1, Hx2; lia.
Qed.

(** After [(0, 3)] and [(3, 5)] the table rejects [(2, 4)]. *)
Lemma ledger_schema_enforced_witness :
  exists e, insert_row ledger_035 2 4 1572652800000000 = Raise e.
Proof.
  destruct (@ledger_schema_enforced host_123 state_035 ledger_035 2 4 1572652800000000)
    as (_ & _ & Hoverlap & _).
  - vm_compute. reflexivity.
  - reflexivity.
  - exact ledger_035_invariant.
  - destruct Hoverlap as [Hrej _]; [|exact Hrej].
    exists {| id := 1; from_version := 0; to_version := 3;
              migrated_at := 1572480000000000 |}.
    split; [by left|]. exists 3. simpl. lia.
Defined.

(** The rejection is the exclusion constraint's. *)
Example overlapping_insert_rejected :
  insert_row ledger_035 2 4 1572652800000000 = Raise ExclusionViolation
  /\ insert_row ledger_035 5 5 1572652800000000 = Raise CheckViolation
  /\ exists t, insert_row ledger_035 5 7 1572652800000000 = Return t.
Proof. vm_compute. eauto. Qed.

(** On the ledger with rows 1 and 2 the read returns row 2's version. *)
Lemma currentVersion_largest_id_witness :
  exists r, r ∈ tbl_rows ledger_035
            /\ res (@currentVersion host_123 state_035) = Return (to_version r).
Proof.
  destruct (@currentVersion_largest_id host_123 state_035 ledger_035)
    as (_ & _ & Hrows).
  - vm_compute. reflexivity.
  - destruct Hrows as (r & Hr & _ & Hres); [discriminate|].
    exists r. split; [exact Hr|exact Hres].
Defined.

Example currentVersion_035 : res (@currentVersion host_123 state_035) = Return 5.
Proof. vm_compute. reflexivity. Qed.

(** A second run right after the first one does nothing. *)
Lemma migrate_idempotent_witness :
  res (@_migrate host_123 "fas" (final (@_migrate host_123 "fas" (fresh_state ∅))))
  = Return tt.
Proof.
  apply (@migrate_idempotent host_123 "fas" "fas" (fresh_state ∅)
           (final (@_migrate host_123 "fas" (fresh_state ∅)))
           eq_refl (fresh_identity_ahead ∅) run_123_successful eq_refl).
  vm_compute. reflexivity.
Defined.

(** The orchestrator's body under the executor, with a failing script. *)
Lemma transactional_executor_witness :
  st_txn (final (transactional (@_migrate_body host_123_failing "fas") (fresh_state ∅)))
  = None.
Proof.
  destruct (@transactional_executor host_123_failing unit
              (_migrate_body "fas") (fresh_state ∅)
              (inside_migrate_body "fas")) as (_ & Hrun & _).
  destruct (Hrun eq_refl) as (_ & Htxn & _). exact Htxn.
Defined.

(** tests/database/test_transaction.py: without the exception the renamed
    organization is committed; with it neither name is. *)
Example test_transaction :
  let ok := @test_func host_123 false (fresh_state ∅) in
  let failed := @test_func host_123 true (fresh_state ∅) in
  res ok = Return tt
  /\ organization (app_data (st_committed (final ok))) = ["NEW-ORG#1"]
  /\ res failed = Raise (Exception "")
  /\ organization (app_data (st_committed (final failed))) = [].
Proof. vm_compute. done. Qed.

(** Two processes with different hash secrets do not exclude each other:
    while the first holds its key, the second obtains its own. *)
Example second_process_obtains_lock :
  let first := sample_host files_123 (Return tt) (Return tt) production 1 in
  let second := sample_host files_123 (Return tt) (Return tt) production 2 in
  head (drop 1 (events (@_migrate second "fas"
                          (fresh_state {[MIGRATION_LOCK_KEY (@process first)]}))))
  = Some (EvTryLock (MIGRATION_LOCK_KEY (@process second)) true).
Proof. vm_compute. reflexivity. Qed.

(** In development the guards are not consulted, even if they would raise;
    in production the first raising guard ends the command at once. *)
Example guards_by_environment :
  let dev := sample_host files_123 (Raise UnlockedScriptError)
               (Raise LockedScriptModifiedError) development 1 in
  let prod := sample_host files_123 (Raise UnlockedScriptError)
                (Return tt) production 1 in
  let c := {| db_database := "fas" |} in
  res (@migrate_database dev c (fresh_state ∅)) = Return tt
  /\ forallb not_guard (events (@migrate_database dev c (fresh_state ∅))) = true
  /\ res (@migrate_database prod c (fresh_state ∅)) = Raise UnlockedScriptError
  /\ events (@migrate_database prod c (fresh_state ∅)) = [EvGuard guard_not_locked].
Proof. vm_compute. done. Qed.

(** * Further properties of tasks.py *)

(** ** Creating the database and connecting *)

Section Commands.
Context {H : Host}.



Lemma migrate_closes_transaction (db_name : string) (s : State) :
  st_txn s = None ->
  st_txn (final (_migrate db_name s)) = None
  /\ st_own_locks (final (_migrate db_name s)) = ∅.
Proof.
  intros Hs.
  destruct (transactional_run (_migrate_body db_name) s Hs) as (_ & _ & Hfin).
  fold (_migrate db_name) in Hfin. rewrite Hfin.
  by destruct (res (_migrate_body db_name (begin_state s))).
Qed.

(** X2: [_migrate_database] fails at once, with nothing begun, when the database
    does not exist; otherwise it opens one connection, runs [_migrate] and
    closes the connection on every path, handing on the result or the
    failure of [_migrate]; no transaction and no advisory lock of the
    session outlives it. *)
Theorem migrate_database_connection (db_name : string) (s : State) :
  st_txn s = None ->
  let o := _migrate_database db_name s in
  if st_exists s
  then res o = res (_migrate db_name s)
       /\ final o = final (_migrate db_name s)
       /\ events o = EvConnect :: events (_migrate db_name s) ++ [EvClose]
       /\ st_txn (final o) = None
       /\ st_own_locks (final o) = ∅
  else res o = Raise (InvalidCatalogName db_name)
       /\ final o = s
       /\ events o = [].
Proof.
  intros Hs o. subst o. unfold _migrate_database. rewrite bind_run.
  unfold connect. destruct (st_exists s); cbn [emit raise res final events]; [|done].
  unfold finally. cbn [emit res final events].
  destruct (migrate_closes_transaction db_name s Hs) as [Htxn Hlocks].
  by destruct (res (_migrate db_name s)).
Qed.

End Commands.

(** ** drop and reset *)

Section DropResetProperties.
Context {H : Host}.















End DropResetProperties.

(** ** The ledger as a chain *)






Section Chain.
Context {H : Host}.











(** X11: A run that obtains the lock and finds nothing pending returns normally:
    it has made sure the ledger table exists and changed nothing else. *)
Theorem migrate_nothing_pending (db_name : string) (s : State) :
  st_txn s = None ->
  MIGRATION_LOCK_KEY process ∉ st_foreign_locks s ->
  load_versions (current_version_of (st_committed s)) = Return ∅ ->
  let o := _migrate db_name s in
  res o = Return tt
  /\ st_committed (final o) = ensure_ledger (st_committed s)
  /\ is_Some (tables (st_committed (final o)) !! "database_migration")
  /\ ledger_rows (st_committed (final o)) = ledger_rows (st_committed s)
  /\ app_data (st_committed (final o)) = app_data (st_committed s)
  /\ events o
     = EvBegin :: run_prefix
       ++ [ EvPrint (Some yellow)
              (DidNotMigrateNoScripts db_name (current_version_of (st_committed s)));
            EvCommit ].
Proof.
  intros Hs Hfree Hnone o.
  destruct (transactional_run (_migrate_body db_name) s Hs) as (Hres & Hev & Hfin).
  fold (_migrate db_name) in Hres, Hev, Hfin. fold o in Hres, Hev, Hfin.
  pose proof (migrate_body_run db_name (begin_state s) (st_committed s) eq_refl Hfree)
    as Hbody.
  cbn zeta in Hbody. rewrite Hnone in Hbody. rewrite decide_True in Hbody by done.
  destruct Hbody as (Hrb & Hfb & Hevb).
  rewrite Hrb in Hres, Hev, Hfin. rewrite Hevb in Hev. rewrite Hfb in Hfin.
  assert (Hc : st_committed (final o) = ensure_ledger (st_committed s))
    by (by rewrite Hfin).
  split; [done|]. split; [done|]. rewrite Hc. split.
  { destruct (ensure_ledger_lookup (st_committed s)) as (t & Ht & _). eauto. }
  split; [apply ensure_ledger_rows|]. split; [apply ensure_ledger_app|].
  rewrite Hev. by rewrite <- app_assoc.
Qed.






(** X12: [execute_migration_scripts] with a target that is not above the start
    executes no script; the insert of the empty range is turned down (by the
    table's CHECK, or because there is no table), the call raises and leaves
    nothing behind. *)
Theorem execute_scripts_empty_range (from to : Z) (versions : gmap Z Path) (s : State) :
  st_txn s = None ->
  to <= from ->
  (forall t, tables (st_committed s) !! "database_migration" = Some t ->
             tbl_constraints t = ledger_constraints) ->
  let o := execute_migration_scripts from to versions s in
  (exists e, res o = Raise e)
  /\ st_committed (final o) = st_committed s
  /\ st_txn (final o) = None
  /\ events o = [ EvBegin;
                  EvInsert "database_migration" from to (st_clock s);
                  EvRollback ].
Proof.
  intros Hs Hle Hcons o. subst o. unfold execute_migration_scripts.
  destruct (transactional_run (execute_migration_scripts_body from to versions) s Hs)
    as (Hres & Hev & Hfin).
  assert (Hb : is_Some (st_txn (begin_state s))) by (simpl; eauto).
  destruct (inside_execute_migration_scripts from to versions _ Hb) as [_ Hcomm].
  unfold execute_migration_scripts, transactional in Hcomm.
  change (st_txn (begin_state s)) with (Some (st_committed s)) in Hcomm.
  cbn iota in Hcomm.
  pose proof (execute_scripts_body_run from to versions (begin_state s)
                (st_committed s) eq_refl) as Hexec.
  cbn zeta in Hexec.
  assert (Hrange : py_range (from + 1) (to + 1) = [])
    by (unfold py_range; apply seqZ_nil; lia).
  rewrite Hrange in Hexec. cbn [apply_scripts script_events] in Hexec.
  destruct Hexec as [Hevb Hins]. change (st_clock (begin_state s)) with (st_clock s) in *.
  assert (Hraise : exists e, res (execute_migration_scripts_body from to versions
                                    (begin_state s)) = Raise e).
  { destruct (insert_into _ _ _ _ _) as [c'|e] eqn:Hinsert; [|eauto].
    exfalso. unfold insert_into in Hinsert. simpl in Hinsert.
    destruct (tables (st_committed s) !! "database_migration") as [t|] eqn:Ht; [|done].
    destruct (insert_row t from to (st_clock s)) as [t'|] eqn:Hrow; [|done].
    apply insert_row_inv in Hrow as [Hchk _]. rewrite (Hcons t eq_refl) in Hchk.
    apply ledger_constraints_accept in Hchk as (_ & Hlt & _). simpl in Hlt. lia. }
  destruct Hraise as [e He]. rewrite He in Hres, Hev, Hfin.
  rewrite Hres, Hev, Hfin, Hevb. simpl. rewrite Hcomm. eauto.
Qed.

End Chain.

Section MigrateCommand.
Context {H : Host}.


End MigrateCommand.

(** ** The range of the lock key *)

Lemma lxor_word64 (a b : Z) :
  0 <= a < 2 ^ 64 -> 0 <= b < 2 ^ 64 -> 0 <= Z.lxor a b < 2 ^ 64.
Proof.
  intros Ha Hb.
  assert (Hnn : 0 <= Z.lxor a b) by (apply Z.lxor_nonneg; lia).
  split; [done|].
  destruct (decide (Z.lxor a b = 0)) as [->|Hne]; [lia|].
  apply Z.log2_lt_pow2; [lia|].
  pose proof (Z.log2_lxor a b ltac:(lia) ltac:(lia)) as Hlog.
  assert (Z.log2 a < 64).
  { destruct (decide (a = 0)) as [->|]; [simpl; lia|]. apply Z.log2_lt_pow2; lia. }
  assert (Z.log2 b < 64).
  { destruct (decide (b = 0)) as [->|]; [simpl; lia|]. apply Z.log2_lt_pow2; lia. }
  lia.
Qed.

Lemma wrap64_word (x : Z) : 0 <= PyHash.wrap64 x < 2 ^ 64.
Proof. unfold PyHash.wrap64. apply Z.mod_pos_bound. lia. Qed.

Lemma single_round_words (st : PyHash.sipstate) : sip_words (PyHash.SINGLE_ROUND st).
Proof.
  unfold PyHash.SINGLE_ROUND, PyHash.HALF_ROUND, PyHash.ROTATE, sip_words. simpl.
  repeat split; first [apply wrap64_word | apply lxor_word64; apply wrap64_word].
Qed.

Lemma rounds_words (n : nat) (st : PyHash.sipstate) :
  (0 < n)%nat -> sip_words (PyHash.rounds n st).
Proof.
  revert st. induction n as [|n IH]; intros st Hn; [lia|]. simpl.
  destruct n as [|n]; [apply single_round_words|]. apply IH. lia.
Qed.

Lemma siphash_word (c d : nat) (k0 k1 : Z) (src : list Z) :
  (0 < d)%nat -> 0 <= PyHash.siphash c d k0 k1 src < 2 ^ 64.
Proof.
  intros Hd. unfold PyHash.siphash.
  destruct (PyHash.compress _ _ _ _) as [st rest].
  match goal with
  | |- context [PyHash.rounds d ?st0] =>
      destruct (rounds_words d st0 Hd) as (H0 & H1 & H2 & H3)
  end.
  apply lxor_word64; by apply lxor_word64.
Qed.

Lemma hash_range (alg : PyHash.hash_algorithm) (secret : PyHash.HashSecret) (s : string) :
  - 2 ^ 63 <= PyHash.hash alg secret s < 2 ^ 63 /\ PyHash.hash alg secret s <> -1.
Proof.
  unfold PyHash.hash, PyHash._Py_HashBytes. case_decide; [lia|].
  assert (Hw : 0 <= PyHash.run_algorithm alg (PyHash.k0 secret) (PyHash.k1 secret)
                      (PyHash.str_bytes s) < 2 ^ 64).
  { destruct alg; apply siphash_word; lia. }
  unfold PyHash.to_Py_hash_t. repeat case_decide; lia.
Qed.

(** X13: Whatever the process, [MIGRATION_LOCK_KEY] is a signed 64-bit integer
    other than -1: a value the advisory lock accepts as its [bigint] key. *)
Theorem lock_key_is_bigint (p : Process) :
  - 2 ^ 63 <= MIGRATION_LOCK_KEY p < 2 ^ 63 /\ MIGRATION_LOCK_KEY p <> -1.
Proof.
  unfold MIGRATION_LOCK_KEY.
  destruct (hash_range (proc_algorithm p) (proc_secret p)
              ("i48gEtCCfX1lxPpWgVyBYH1z4VQpFNz7+" +:+ MIGRATION_TABLE)) as [Hr Hne].
  split; [exact Hr|exact Hne].
Qed.

(** ** Two runs in a row *)

Section TwoRuns.
Context {H1 H2 : Host}.



End TwoRuns.

(** * The further properties at work on the concrete hosts *)

Lemma migrate_database_connection_witness :
  events (@_migrate_database host_123 "fas" (fresh_state ∅))
  = EvConnect :: events (@_migrate host_123 "fas" (fresh_state ∅)) ++ [EvClose].
Proof.
  pose proof (@migrate_database_connection host_123 "fas" (fresh_state ∅) eq_refl) as Hc.
  cbn zeta in Hc. change (st_exists (@fresh_state host_123 ∅)) with true in Hc.
  cbn iota in Hc. destruct Hc as (_ & _ & Hev & _). exact Hev.
Defined.











(** Recording the range from 5 to 5 on the ledger at version 5. *)
Lemma execute_scripts_empty_range_witness :
  events (@execute_migration_scripts host_123 5 5 ∅ state_035)
  = [ EvBegin; EvInsert "database_migration" 5 5 1572652800000000; EvRollback ].
Proof.
  destruct (@execute_scripts_empty_range host_123 5 5 ∅ state_035 eq_refl)
    as (_ & _ & _ & Hev).
  - lia.
  - intros t Ht. simpl in Ht. rewrite lookup_singleton_eq in Ht.
    injection Ht as <-. reflexivity.
  - exact Hev.
Defined.

Example drop_then_create :
  let dropped := t_final (@drop_database host_dev config_fas state_035) in
  st_exists dropped = false
  /\ st_committed (final (@create_database_if_not_exist host_dev config_fas dropped))
     = @Build_Content host_dev ∅ {| organization := []; applied := [] |}.
Proof. vm_compute. done. Qed.


(** At version 5 with scripts 1 to 3 nothing is pending. *)
Lemma migrate_nothing_pending_witness :
  res (@_migrate host_123 "fas" state_035) = Return tt.
Proof.
  apply (@migrate_nothing_pending host_123 "fas" state_035 eq_refl).
  - apply not_elem_of_empty.
  - vm_compute. reflexivity.
Defined.


